(** * Leitor de DARF: the extraction core of [leitor-darf.py]

    A shallow embedding of the record parser of the script: the two
    regular expressions, the exclusion list and the loop of
    [extrair_dados] over the page texts of a document, together with the
    branch of the Streamlit front end that consumes its result.

    Python strings are sequences of Unicode code points, the [re] module
    is a backtracking matcher, and the text of each page is produced by
    PyMuPDF, which lies outside the script: the document is taken here as
    the list of its page texts. *)

From Stdlib Require Import String Ascii.
From Stdlib Require Import List NArith ZArith Arith Bool Lia.
Import ListNotations.

Set Implicit Arguments.

(* ================================================================== *)
(** * Exceptions *)
(* ================================================================== *)

(** What a call can raise.  [AttributeError] is what Python raises when a
    [str] method is called on the [None] that [Match.group] returns for a
    group that took no part in the match.  [OutOfFuel] is the model's own:
    the matcher recursion is bounded, and a bound that is too small shows
    here instead of being mistaken for a failed match.  [Raised] is any
    other exception, by the name of its class: what a library call that
    the model takes as given may raise. *)
Inductive error : Type :=
| AttributeError
| OutOfFuel
| Raised (name : string).

Inductive exc (A : Type) : Type :=
| Ok (a : A)
| Err (e : error).

Arguments Ok {A} a.
Arguments Err {A} e.

Definition bind {A B : Type} (c : exc A) (f : A -> exc B) : exc B :=
  match c with
  | Ok a => f a
  | Err e => Err e
  end.

Declare Scope exc_scope.
Delimit Scope exc_scope with exc.
Notation "x <- c ;; k" := (bind c (fun x => k))
  (at level 61, c at next level, right associativity) : exc_scope.
Notation "' p <- c ;; k" := (bind c (fun x => let p := x in k))
  (at level 61, p pattern, c at next level, right associativity) : exc_scope.
Local Open Scope exc_scope.

(** A [for] loop over a list whose body updates the loop state and may
    raise: the first exception ends the loop. *)
Fixpoint for_each {A S : Type} (xs : list A) (body : S -> A -> exc S) (s : S)
  : exc S :=
  match xs with
  | [] => Ok s
  | x :: xs' => s' <- body s x ;; for_each xs' body s'
  end.

(* ================================================================== *)
(** * Python strings *)
(* ================================================================== *)

Module Py.

Local Open Scope N_scope.

(** A [str] is a sequence of code points. *)
Definition cp : Type := N.
Definition str : Type := list cp.

(** Literals.  The source file is UTF-8, and so is this one: a literal
    is decoded from its bytes (well-formed input only; a truncated
    sequence is left as it is). *)
Fixpoint utf8 (bs : list N) : str :=
  match bs with
  | b0 :: t0 =>
      if b0 <? 128 then b0 :: utf8 t0
      else match t0 with
      | b1 :: t1 =>
          if b0 <? 224 then ((b0 - 192) * 64 + (b1 - 128)) :: utf8 t1
          else match t1 with
          | b2 :: t2 =>
              if b0 <? 240
              then ((b0 - 224) * 4096 + (b1 - 128) * 64 + (b2 - 128)) :: utf8 t2
              else match t2 with
              | b3 :: t3 =>
                  ((b0 - 240) * 262144 + (b1 - 128) * 4096
                   + (b2 - 128) * 64 + (b3 - 128)) :: utf8 t3
              | [] => bs
              end
          | [] => bs
          end
      | [] => bs
      end
  | [] => []
  end.

Definition lit (x : string) : str :=
  utf8 (map N_of_ascii (list_ascii_of_string x)).

Arguments lit x%_string.

(** [ord(x)] of a one-character literal. *)
Definition ord (x : string) : cp := hd 0 (lit x).
Arguments ord x%_string.

Definition LF : cp := 10%N.
Definition CR : cp := 13%N.

Definition in_range (lo hi c : cp) : bool := ((lo <=? c) && (c <=? hi))%N.

(** [==] on [str]. *)
Fixpoint eqb (a b : str) : bool :=
  match a, b with
  | [], [] => true
  | x :: a', y :: b' => (x =? y)%N && eqb a' b'
  | _, _ => false
  end.

(** [Py_UNICODE_ISSPACE]: the characters [str.strip] removes and the
    [re] class [\s] accepts in a [str] pattern. *)
Definition isspace (c : cp) : bool :=
  in_range 9 13 c || in_range 28 32 c || (c =? 133)%N || (c =? 160)%N
  || (c =? 5760)%N || in_range 8192 8202 c || in_range 8232 8233 c
  || (c =? 8239)%N || (c =? 8287)%N || (c =? 12288)%N.

(** [Py_UNICODE_ISLINEBREAK]: the line boundaries of [str.splitlines]. *)
Definition islinebreak (c : cp) : bool :=
  in_range 10 13 c || in_range 28 30 c || (c =? 133)%N
  || in_range 8232 8233 c.

(** [s.splitlines()].  A line ends at a line boundary, [\r\n] counts as
    one boundary, the boundaries are dropped, and there is no empty last
    line after a final boundary.  [after_cr] remembers that the previous
    character was a [\r], [cur] is the line read so far. *)
Fixpoint splitlines_from (after_cr : bool) (cur : str) (s : str) : list str :=
  match s with
  | [] => match cur with [] => [] | _ => [cur] end
  | c :: t =>
      if after_cr && (c =? LF)%N then splitlines_from false cur t
      else if islinebreak c then cur :: splitlines_from (c =? CR)%N [] t
      else splitlines_from false (cur ++ [c]) t
  end.

Definition splitlines (s : str) : list str := splitlines_from false [] s.

(** [l[i:]] for a possibly negative [i]: a negative index counts from the
    end, and an index before the start is clamped to it. *)
Definition slice_from {A : Type} (i : Z) (l : list A) : list A :=
  let n := Z.of_nat (length l) in
  let start := if (i <? 0)%Z then Z.max 0 (n + i) else Z.min i n in
  skipn (Z.to_nat start) l.

(** [s[a:b]] for [0 <= a], [0 <= b]. *)
Definition slice (a b : nat) (s : str) : str :=
  firstn (b - a)%nat (skipn a s).

(** [sep.join(parts)]. *)
Fixpoint join (sep : str) (parts : list str) : str :=
  match parts with
  | [] => []
  | [p] => p
  | p :: rest => p ++ sep ++ join sep rest
  end.

(** [s.lstrip()], [s.rstrip()], [s.strip()]. *)
Fixpoint lstrip (s : str) : str :=
  match s with
  | c :: t => if isspace c then lstrip t else s
  | [] => []
  end.

Definition rstrip (s : str) : str := rev (lstrip (rev s)).

Definition strip (s : str) : str := rstrip (lstrip s).

(** [s.replace(old, new)] for a one-character [old], the only use the
    script makes of it. *)
Fixpoint replace (old : cp) (new : str) (s : str) : str :=
  match s with
  | [] => []
  | c :: t => (if (c =? old)%N then new else [c]) ++ replace old new t
  end.

(** [a in b] on strings: [a] occurs in [b] as a contiguous run. *)
Fixpoint startswith (a b : str) : bool :=
  match a, b with
  | [], _ => true
  | x :: a', y :: b' => (x =? y)%N && startswith a' b'
  | _ :: _, [] => false
  end.

Fixpoint contains (a b : str) : bool :=
  startswith a b
  || match b with
     | [] => false
     | _ :: b' => contains a b'
     end.

(** The part of the Unicode character database of the running
    interpreter that the script reaches and that is too large to write
    down: the decimal digits (category Nd, the [re] class [\d]) and
    [str.lower], which is not a character-wise map in general. *)
Record ucd : Type := {
  isdecimal : cp -> bool;
  lower : str -> str
}.

(** Below U+0100 the database is small and fixed: the decimal digits are
    ['0'..'9'], and lowering is character-wise, adding 32 to ['A'..'Z'],
    to U+00C0..U+00D6 and to U+00D8..U+00DE. *)
Definition latin1 (c : cp) : Prop := c < 256.

Definition latin1_isdecimal (c : cp) : bool := in_range 48 57 c.

Definition latin1_lower_cp (c : cp) : cp :=
  if in_range 65 90 c || in_range 192 214 c || in_range 216 222 c
  then (c + 32)%N else c.

Definition latin1_ucd : ucd :=
  {| isdecimal := latin1_isdecimal; lower := map latin1_lower_cp |}.

Definition latin1_compatible (db : ucd) : Prop :=
  (forall c, latin1 c -> isdecimal db c = latin1_isdecimal c)
  /\ (forall s, Forall latin1 s -> lower db s = map latin1_lower_cp s).

End Py.

(* ================================================================== *)
(** * The [re] module: a backtracking matcher *)
(* ================================================================== *)

Module Re.

Import Py.

(** What one pattern character accepts. *)
Inductive item : Type :=
| Char (c : string)         (* a literal character, also an escaped one *)
| Range (lo hi : string)    (* [lo-hi] inside a set *)
| Digit                     (* \d *)
| Space                     (* \s *)
| Dot.                      (* .  (no DOTALL flag: anything but \n) *)

Arguments Char c%_string.
Arguments Range (lo hi)%_string.

(** The constructs the two patterns of the script are written with.
    [Set_ items] is a character set [[...]]; [Rep lo hi greedy r] is
    [r{lo,hi}], with [hi = None] for no upper bound, and its lazy form
    [r{lo,hi}?] when [greedy] is [false]; [Group g r] is the capturing
    group number [g]. *)
Inductive re : Type :=
| One (i : item)
| Set_ (items : list item)
| Seq (r1 r2 : re)
| Alt (r1 r2 : re)
| Rep (lo : nat) (hi : option nat) (greedy : bool) (r : re)
| Group (g : nat) (r : re).

Definition times (n : nat) (r : re) : re := Rep n (Some n) true r.   (* r{n} *)
Definition plus (r : re) : re := Rep 1 None true r.                  (* r+ *)
Definition star (r : re) : re := Rep 0 None true r.                  (* r* *)
Definition lazy_plus (r : re) : re := Rep 1 None false r.            (* r+? *)

Declare Scope re_scope.
Delimit Scope re_scope with re.
Bind Scope re_scope with re.
Infix ">>" := Seq (at level 61, right associativity) : re_scope.

(** A match in progress: the position reached in the subject and the
    spans of the groups closed so far, the latest first. *)
Record mstate : Type := {
  pos : nat;
  caps : list (nat * (nat * nat))
}.

Fixpoint span (g : nat) (cs : list (nat * (nat * nat))) : option (nat * nat) :=
  match cs with
  | [] => None
  | (g', ab) :: cs' => if Nat.eqb g' g then Some ab else span g cs'
  end.

Definition advance (st : mstate) : mstate :=
  {| pos := S (pos st); caps := caps st |}.

Definition close (g : nat) (a : nat) (st : mstate) : mstate :=
  {| pos := pos st; caps := (g, (a, pos st)) :: caps st |}.

(** The outcome of trying to match: a final state, no match, or the
    model's fuel giving out. *)
Definition outcome : Type := exc (option mstate).

(** Ordered choice: the second way is tried only when the first fails. *)
Definition orelse (a : outcome) (b : unit -> outcome) : outcome :=
  match a with
  | Ok None => b tt
  | _ => a
  end.

Definition below (n : nat) (hi : option nat) : bool :=
  match hi with
  | None => true
  | Some h => Nat.ltb n h
  end.

Section Matcher.

Variable db : ucd.
Variable s : str.        (* the subject string *)

Definition accepts (i : item) (c : cp) : bool :=
  match i with
  | Char x => (c =? ord x)%N
  | Range lo hi => in_range (ord lo) (ord hi) c
  | Digit => isdecimal db c
  | Space => isspace c
  | Dot => negb (c =? LF)%N
  end.

(** One character of the subject against [ok], then the rest. *)
Definition step (ok : cp -> bool) (k : mstate -> outcome) (st : mstate)
  : outcome :=
  match nth_error s (pos st) with
  | Some c => if ok c then k (advance st) else Ok None
  | None => Ok None
  end.

(** The rounds of a repeat whose body is matched by [body]: [n] rounds
    are done.  A greedy repeat tries one more round before it tries to
    stop, a lazy one the other way round. *)
Section Repeat.

Variable body : (mstate -> outcome) -> mstate -> outcome.
Variable k : mstate -> outcome.
Variable lo : nat.
Variable hi : option nat.
Variable greedy : bool.

Fixpoint rep_loop (fuel : nat) (n : nat) (st : mstate) {struct fuel}
  : outcome :=
  match fuel with
  | O => Err OutOfFuel
  | S fuel' =>
      let more := fun _ : unit =>
        if below n hi then body (rep_loop fuel' (S n)) st else Ok None in
      let stop := fun _ : unit =>
        if Nat.leb lo n then k st else Ok None in
      if greedy then orelse (more tt) stop else orelse (stop tt) more
  end.

End Repeat.

(** [run r k st] matches [r] from [st] and hands each way of doing so,
    in the order of priority, to the continuation [k] until [k]
    succeeds.  The rounds of a repeat are bounded by the number of
    characters that are left, plus one. *)
Fixpoint run (r : re) (k : mstate -> outcome) (st : mstate) {struct r}
  : outcome :=
  match r with
  | One i => step (accepts i) k st
  | Set_ items => step (fun c => existsb (fun i => accepts i c) items) k st
  | Seq r1 r2 => run r1 (run r2 k) st
  | Alt r1 r2 => orelse (run r1 k st) (fun _ => run r2 k st)
  | Group g r' => run r' (fun st' => k (close g (pos st) st')) st
  | Rep lo hi greedy r' =>
      rep_loop (run r') k lo hi greedy (S (length s - pos st)) 0 st
  end.

(** A match object: where the match starts and ends, and its groups. *)
Record mobj : Type := {
  m_start : nat;
  m_end : nat;
  m_caps : list (nat * (nat * nat))
}.

(** [m.group(g)], with [None] for a group that took no part. *)
Definition group (m : mobj) (g : nat) : option str :=
  match span g (m_caps m) with
  | Some (a, b) => Some (slice a b s)
  | None => None
  end.

(** One attempt at position [start].  With [must_advance] an empty
    match is refused, as the scanner asks after an empty match. *)
Definition match_at (r : re) (must_advance : bool) (start : nat)
  : exc (option mobj) :=
  x <- run r
        (fun st => if must_advance && Nat.eqb (pos st) start then Ok None
                   else Ok (Some st))
        {| pos := start; caps := [] |} ;;
  Ok (option_map
        (fun st => {| m_start := start; m_end := pos st; m_caps := caps st |})
        x).

(** The attempts of a search, at [start], [start + 1], ... for [n]
    positions; only the first attempt is asked to advance. *)
Fixpoint search_loop (r : re) (must_advance : bool) (n : nat) (start : nat)
  : exc (option mobj) :=
  match n with
  | O => Ok None
  | S n' =>
      x <- match_at r must_advance start ;;
      match x with
      | Some m => Ok (Some m)
      | None => search_loop r false n' (S start)
      end
  end.

Definition search_from (r : re) (must_advance : bool) (start : nat)
  : exc (option mobj) :=
  search_loop r must_advance (S (length s - start)) start.

(** [pattern.search(s)]. *)
Definition search (r : re) : exc (option mobj) := search_from r false 0.

(** [pattern.finditer(s)]: search, then search again from the end of
    the match found, refusing an empty match there if the last one was
    empty.  Each position is the start of at most two searches. *)
Fixpoint finditer_loop (fuel : nat) (r : re) (must_advance : bool)
    (start : nat) : exc (list mobj) :=
  match fuel with
  | O => Err OutOfFuel
  | S fuel' =>
      x <- search_from r must_advance start ;;
      match x with
      | None => Ok []
      | Some m =>
          rest <- finditer_loop fuel' r (Nat.eqb (m_end m) (m_start m))
                    (m_end m) ;;
          Ok (m :: rest)
      end
  end.

Definition finditer (r : re) : exc (list mobj) :=
  finditer_loop (2 * length s + 3) r false 0.

End Matcher.

(** ** What a match is, apart from the order of the search *)

(** [iter n R]: [n] steps of [R]. *)
Fixpoint iter {A : Type} (n : nat) (R : A -> A -> Prop) (a b : A) : Prop :=
  match n with
  | O => a = b
  | S n' => exists c, R a c /\ iter n' R c b
  end.

Definition within (n : nat) (hi : option nat) : Prop :=
  match hi with
  | None => True
  | Some h => n <= h
  end.

Section Sem.

Variable db : ucd.
Variable s : str.

Definition takes (ok : cp -> bool) (st st1 : mstate) : Prop :=
  exists c, nth_error s (pos st) = Some c /\ ok c = true /\ st1 = advance st.

(** [sem r st st1]: [r] matches the subject from [pos st] to [pos st1]
    and closes its groups on the way. *)
Fixpoint sem (r : re) (st st1 : mstate) {struct r} : Prop :=
  match r with
  | One i => takes (accepts db i) st st1
  | Set_ items => takes (fun c => existsb (fun i => accepts db i c) items) st st1
  | Seq r1 r2 => exists mid, sem r1 st mid /\ sem r2 mid st1
  | Alt r1 r2 => sem r1 st st1 \/ sem r2 st st1
  | Rep lo hi _ r' => exists n, lo <= n /\ within n hi /\ iter n (sem r') st st1
  | Group g r' => exists mid, sem r' st mid /\ st1 = close g (pos st) mid
  end.

(** What a match object records of a match of [r] that starts at
    [m_start]. *)
Definition match_of (r : re) (m : mobj) : Prop :=
  exists st1, sem r {| pos := m_start m; caps := [] |} st1
              /\ m_end m = pos st1 /\ m_caps m = caps st1.

End Sem.

(** The least number of characters a match of [r] takes. *)
Fixpoint min_len (r : re) : nat :=
  match r with
  | One _ | Set_ _ => 1
  | Seq r1 r2 => min_len r1 + min_len r2
  | Alt r1 r2 => Nat.min (min_len r1) (min_len r2)
  | Rep lo _ _ r' => lo * min_len r'
  | Group _ r' => min_len r'
  end.

(** Every repeated body takes at least one character: the rounds of a
    repeat then end with the subject. *)
Fixpoint productive (r : re) : bool :=
  match r with
  | One _ | Set_ _ => true
  | Seq r1 r2 | Alt r1 r2 => productive r1 && productive r2
  | Rep _ _ _ r' => Nat.ltb 0 (min_len r') && productive r'
  | Group _ r' => productive r'
  end.

Fixpoint groupless (r : re) : bool :=
  match r with
  | One _ | Set_ _ => true
  | Seq r1 r2 | Alt r1 r2 => groupless r1 && groupless r2
  | Rep _ _ _ r' => groupless r'
  | Group _ _ => false
  end.

(** A state moved to the right by [n] characters. *)
Definition shift (n : nat) (st : mstate) : mstate :=
  {| pos := n + pos st;
     caps := map (fun c => (fst c, (n + fst (snd c), n + snd (snd c)))) (caps st) |}.

Definition shift_obj (n : nat) (m : mobj) : mobj :=
  {| m_start := n + m_start m; m_end := n + m_end m;
     m_caps := map (fun c => (fst c, (n + fst (snd c), n + snd (snd c)))) (m_caps m) |}.

Definition shift_outcome (n : nat) (x : outcome) : outcome :=
  match x with
  | Ok (Some st) => Ok (Some (shift n st))
  | Ok None => Ok None
  | Err e => Err e
  end.

Definition shift_found (n : nat) (x : exc (option mobj)) : exc (option mobj) :=
  match x with
  | Ok (Some m) => Ok (Some (shift_obj n m))
  | Ok None => Ok None
  | Err e => Err e
  end.

End Re.

(* ================================================================== *)
(** * The script *)
(* ================================================================== *)

Module Darf.

Import Py Re.
Local Open Scope re_scope.

(** ** The regular expressions *)

(** The named groups of [pattern_linha] with their numbers
    ([pattern_linha.groupindex]). *)
Definition codigo : nat := 1.
Definition descricao : nat := 2.
Definition principal : nat := 3.
Definition juros : nat := 4.
Definition multa : nat := 5.
Definition total : nat := 6.

Definition d : re := One Digit.       (* \d *)
Definition sp : re := One Space.      (* \s *)

(** [\d{1,3}(?:\.\d{3})*,\d{2}], the amount that four of the groups
    share. *)
Definition valor : re :=
  Rep 1 (Some 3) true d >> star (One (Char ".") >> times 3 d)
  >> One (Char ",") >> times 2 d.

Definition pattern_linha : re :=
  Group codigo (times 4 d) >> plus sp
  >> Group descricao (lazy_plus (One Dot)) >> plus sp
  >> Group principal valor >> plus sp
  >> Group juros (Alt valor (One (Char "-"))) >> plus sp
  >> Group multa (Alt valor (One (Char "-"))) >> plus sp
  >> Group total valor.

Definition pattern_data_banco : re :=
  Group 1 (times 2 d >> One (Char "/") >> times 2 d >> One (Char "/")
           >> times 4 d)
  >> star sp
  >> Group 2 (times 3 d >> star sp >> One (Char "-") >> star sp
              >> plus (Set_ [Range "A" "Z"; Range "À" "Ú"; Range "0" "9";
                             Char "."; Space])).

Definition EXCECOES_DESCRICAO : list str :=
  [lit "Agência"; lit "Estabelecimento"; lit "Valor Reservado";
   lit "Restituído"; lit "Referência"].

(** ** [extrair_dados] *)

(** One dictionary of [registros].  The fields are its keys, in the order
    of the source: 'Código do DARF', 'Descrição', 'Data de Arrecadação',
    'Banco', 'Valor Principal', 'Juros', 'Multa', 'Total'. *)
Record registro : Type := {
  Codigo_do_DARF : str;
  Descricao : str;
  Data_de_Arrecadacao : str;
  Banco : str;
  Valor_Principal : str;
  Juros : str;
  Multa : str;
  Total : str
}.

Section Extrair.

Variable db : ucd.

(** [m.group(g)] as the script uses it, as a [str].  For a group that
    took no part Python gives [None], on which the [strip] and [replace]
    calls of the script raise, and which would be stored as it is for
    'codigo' and for group 1; the model raises at the lookup in every
    case.  In both patterns every group takes part in every match
    ([linha_groups], [data_banco_ok] below), so none of this happens. *)
Definition group_str (s : str) (m : mobj) (g : nat) : exc str :=
  match group s m g with
  | Some x => Ok x
  | None => Err AttributeError
  end.

(** [any(term.lower() in descricao.lower() for term in EXCECOES_DESCRICAO)] *)
Definition excecao (descricao : str) : bool :=
  existsb (fun term => contains (lower db term) (lower db descricao))
          EXCECOES_DESCRICAO.

(** [v.replace('.', '').replace(',', '.')] *)
Definition decimal (v : str) : str :=
  replace (ord ",") (lit ".") (replace (ord ".") (lit "") v).

(** [v.replace('.', '').replace(',', '.') if v != '-' else '0.00'] *)
Definition decimal_ou_zero (v : str) : str :=
  if negb (eqb v (lit "-")) then decimal v else lit "0.00".

(** What [m_fb] or [m2] gives when it is a match:
    [m.group(1), m.group(2).strip()]. *)
Definition data_banco (s : str) (m : mobj) : exc (str * str) :=
  g1 <- group_str s m 1 ;;
  g2 <- group_str s m 2 ;;
  Ok (g1, strip g2).

Definition rodape_de (texto : str) : str :=
  let linhas := splitlines texto in
  strip (join (lit " ") (slice_from (-8) linhas)).

Definition texto_flat_de (texto : str) : str :=
  replace LF (lit " ") texto.

(** Step 1 of the loop body: [data_arrec, banco] of a page. *)
Definition data_banco_da_pagina (texto : str) : exc (str * str) :=
  let rodape := rodape_de texto in
  m_fb <- search db rodape pattern_data_banco ;;
  match m_fb with
  | Some m => data_banco rodape m
  | None =>
      let texto_flat := texto_flat_de texto in
      m2 <- search db texto_flat pattern_data_banco ;;
      match m2 with
      | Some m => data_banco texto_flat m
      | None => Ok (lit "", lit "")
      end
  end.

(** The body of the inner loop, for one match [m] in [texto]: [None]
    is the [continue] of an excluded description, otherwise the
    dictionary that is appended. *)
Definition linha (data_arrec banco : str) (texto : str) (m : mobj)
  : exc (option registro) :=
  g_descricao <- group_str texto m descricao ;;
  let descricao := strip g_descricao in
  if excecao descricao then Ok None
  else
    g_codigo <- group_str texto m codigo ;;
    g_principal <- group_str texto m principal ;;
    g_juros <- group_str texto m juros ;;
    g_multa <- group_str texto m multa ;;
    g_total <- group_str texto m total ;;
    Ok (Some {| Codigo_do_DARF := g_codigo;
                Descricao := descricao;
                Data_de_Arrecadacao := data_arrec;
                Banco := banco;
                Valor_Principal := decimal g_principal;
                Juros := decimal_ou_zero g_juros;
                Multa := decimal_ou_zero g_multa;
                Total := decimal g_total |}).

Definition append_linha (data_arrec banco : str) (texto : str)
    (registros : list registro) (m : mobj) : exc (list registro) :=
  x <- linha data_arrec banco texto m ;;
  match x with
  | None => Ok registros
  | Some r => Ok (registros ++ [r])
  end.

(** The dictionaries that the matches [ms] of a page add, in the order
    of the matches. *)
Definition aceitos (data_arrec banco : str) (texto : str) (ms : list mobj)
  : list registro :=
  flat_map (fun m => match linha data_arrec banco texto m with
                     | Ok (Some r) => [r]
                     | _ => []
                     end) ms.

(** The body of the outer loop, for the text of one page. *)
Definition pagina (registros : list registro) (texto : str)
  : exc (list registro) :=
  '(data_arrec, banco) <- data_banco_da_pagina texto ;;
  ms <- finditer db texto pattern_linha ;;
  for_each ms (append_linha data_arrec banco texto) registros.

(** [extrair_dados], from the page texts of the opened document to the
    rows of the data frame. *)
Definition extrair_dados (doc : list str) : exc (list registro) :=
  for_each doc pagina [].

(** ** The front end *)

(** An [io.BytesIO]: the bytes written to it, and the position of the
    stream. *)
Record BytesIO : Type := { getvalue : list Byte.byte; tell : nat }.

(** [BytesIO()] *)
Definition BytesIO_new : BytesIO := {| getvalue := []; tell := 0 |}.

(** [buffer.seek(n)] *)
Definition seek (buffer : BytesIO) (n : nat) : BytesIO :=
  {| getvalue := getvalue buffer; tell := n |}.

(** The Streamlit calls that follow an upload. *)
Inductive st_call : Type :=
| st_warning (body : str)
| st_success (body : str)
| st_dataframe (df : list registro)
| st_download_button (label : str) (data : BytesIO) (file_name : str)
    (mime : str).

(** A run of the block: the Streamlit calls made, in order, and the
    exception that ended the run, if one did. *)
Record resultado : Type := { calls : list st_call; raised : option error }.

(** [df.empty] *)
Definition empty (df : list registro) : bool :=
  match df with [] => true | _ => false end.

(** The [if uploaded:] block; [uploaded] is [None] while no file is
    chosen, else the page texts of the file.  [to_excel df buffer] is
    [df.to_excel(buffer, index=False)], which is pandas' and not the
    script's: it gives the buffer with the workbook written to it, or
    raises (the writer refuses some control characters in a cell, for
    one). *)
Definition app (to_excel : list registro -> BytesIO -> exc BytesIO)
    (uploaded : option (list str)) : resultado :=
  match uploaded with
  | None => {| calls := []; raised := None |}
  | Some doc =>
      match extrair_dados doc with
      | Err e => {| calls := []; raised := Some e |}
      | Ok df =>
          if empty df
          then {| calls := [st_warning (lit "Nenhum dado extraído. Verifique se o layout do PDF corresponde aos padrões esperados.")];
                  raised := None |}
          else
            let shown := [st_success (lit "Extração concluída com sucesso!");
                          st_dataframe df] in
            let buffer := BytesIO_new in
            match to_excel df buffer with
            | Err e => {| calls := shown; raised := Some e |}
            | Ok buffer =>
                let buffer := seek buffer 0 in
                {| calls :=
                     shown
                     ++ [st_download_button (lit "📥 Baixar Excel") buffer
                           (lit "comprovantes_ecac_extraidos.xlsx")
                           (lit "application/vnd.openxmlformats-officedocument.spreadsheetml.sheet")];
                   raised := None |}
            end
      end
  end.

End Extrair.

End Darf.


(* ================================================================== *)
(** * The words of the specification *)
(* ================================================================== *)

(** What the specification says in its own terms, to be compared with
    what the script computes. *)
Module Spec.

Import Py Re Darf.

(** The final [n] lines, fewer if there are fewer. *)
Definition ultimas (n : nat) (linhas : list str) : list str :=
  rev (firstn n (rev linhas)).

(** The footer region: the final 8 lines joined by single spaces,
    trimmed. *)
Definition regiao_rodape (texto : str) : str :=
  strip (join (lit " ") (ultimas 8 (splitlines texto))).







(** An amount with all periods removed and the comma replaced by a
    decimal point. *)
Definition normalizado (v : str) : str :=
  map (fun c => if (c =? ord ",")%N then ord "." else c)
      (filter (fun c => negb (c =? ord ".")%N) v).

(** [a] occurs in [b] when case is ignored. *)
Definition contem_sem_caixa (db : ucd) (a b : str) : bool :=
  contains (lower db a) (lower db b).

(** All characters below U+0100, as a check that computes. *)
Definition abaixo_de_256 (s : str) : bool := forallb (fun c => (c <? 256)%N) s.

(** The rows of one page: those of its matches, in the order of the
    matches, each with the date and bank of the page. *)
Definition linhas_de (db : ucd) (texto : str) (rows : list registro) : Prop :=
  exists data_arrec banco ms,
    data_banco_da_pagina db texto = Ok (data_arrec, banco)
    /\ finditer db texto pattern_linha = Ok ms
    /\ rows = aceitos db data_arrec banco texto ms.

(** A row without date and bank. *)
Definition sem_data_banco (r : registro) : Prop :=
  Data_de_Arrecadacao r = lit "" /\ Banco r = lit "".

End Spec.

(** Texts used as examples. *)
Module Exemplos.

Import Py Re Darf.

Definition linha_darf : str := lit "1234 IMPOSTO DE RENDA 1.234,56 - - 1.234,56".

Definition registro_darf : registro :=
  {| Codigo_do_DARF := lit "1234";
     Descricao := lit "IMPOSTO DE RENDA";
     Data_de_Arrecadacao := lit "";
     Banco := lit "";
     Valor_Principal := lit "1234.56";
     Juros := lit "0.00";
     Multa := lit "0.00";
     Total := lit "1234.56" |}.

(** The same record with a line break after each field. *)
Definition campos_em_linhas : str :=
  join [LF] [lit "1234"; lit "IMPOSTO DE RENDA"; lit "1.234,56"; lit "-";
             lit "-"; lit "1.234,56"].

Definition codigo_longo : str := lit "12345 DESC 1,00 - - 1,00".

Definition rodape_itau : str := lit "31/01/2024 341 - BANCO ITAU S A".

Definition dois_bancos : str :=
  lit "01/01/2020 001 - A 31/01/2024 341 - BANCO ITAU S A".

Definition pagina_itau : str :=
  join [LF] [lit "1234 IMPOSTO DE RENDA 1.234,56 - - 1.234,56";
             lit "31/01/2024 341 - BANCO ITAU S A"].

Definition linha_agencia : str := lit "1234 Agência Centro 1,00 - - 1,00".

(** The one match of [pattern_linha] in [linha_darf] and the one in
    [linha_agencia]. *)
Definition match_darf : mobj :=
  {| m_start := 0; m_end := 43;
     m_caps := [(total, (35, 43)); (multa, (33, 34)); (juros, (31, 32));
                (principal, (22, 30)); (descricao, (5, 21)); (codigo, (0, 4))] |}.

Definition match_agencia : mobj :=
  {| m_start := 0; m_end := 33;
     m_caps := [(total, (29, 33)); (multa, (27, 28)); (juros, (25, 26));
                (principal, (20, 24)); (descricao, (5, 19)); (codigo, (0, 4))] |}.

(** The match of [pattern_data_banco] at the start of [rodape_itau]. *)
Definition match_itau : mobj :=
  {| m_start := 0; m_end := 31; m_caps := [(2, (11, 31)); (1, (0, 10))] |}.

(** A page without any record and without date or bank. *)
Definition pagina_vazia : str := lit "Comprovante de Arrecadação".


End Exemplos.

(* ================================================================== *)
(** * Words of a pattern, and the shapes of the fields *)
(* ================================================================== *)

Module Lang.

Import Py Re.

Section Words.

Variable db : ucd.

(** [rounds n L]: [n] words of [L], one after the other. *)
Fixpoint rounds (n : nat) (L : str -> Prop) (w : str) : Prop :=
  match n with
  | O => w = []
  | S n' => exists w1 w2, w = w1 ++ w2 /\ L w1 /\ rounds n' L w2
  end.

(** [lang r w]: the string [w] as a whole is a match of [r]. *)
Fixpoint lang (r : re) (w : str) {struct r} : Prop :=
  match r with
  | One i => exists c, w = [c] /\ accepts db i c = true
  | Set_ items =>
      exists c, w = [c] /\ existsb (fun i => accepts db i c) items = true
  | Seq r1 r2 => exists w1 w2, w = w1 ++ w2 /\ lang r1 w1 /\ lang r2 w2
  | Alt r1 r2 => lang r1 w \/ lang r2 w
  | Rep lo hi _ r' => exists n, lo <= n /\ within n hi /\ rounds n (lang r') w
  | Group _ r' => lang r' w
  end.

End Words.

End Lang.

Module Forma.

Import Py Re Darf.

Section Digitos.

Variable db : ucd.

(** A decimal digit, as [\d] accepts it. *)
Definition digito (c : cp) : Prop := isdecimal db c = true.

(** Digits, at least one, a point, and two digits. *)
Definition forma_decimal (v : str) : Prop :=
  exists int frac,
    v = int ++ lit "." ++ frac
    /\ int <> [] /\ length frac = 2
    /\ Forall digito int /\ Forall digito frac.

(** Two digits, a slash, two digits, a slash, four digits. *)
Definition forma_data (v : str) : Prop :=
  exists dd mm aaaa,
    v = dd ++ lit "/" ++ mm ++ lit "/" ++ aaaa
    /\ length dd = 2 /\ length mm = 2 /\ length aaaa = 4
    /\ Forall digito dd /\ Forall digito mm /\ Forall digito aaaa.

(** The characters a bank string is made of: digits, white space, the
    hyphen, the period, ['0'..'9'], ['A'..'Z'] and ['À'..'Ú']. *)
Definition de_banco (c : cp) : bool :=
  isdecimal db c || isspace c || (c =? ord "-")%N || (c =? ord ".")%N
  || in_range (ord "0") (ord "9") c
  || in_range (ord "A") (ord "Z") c || in_range (ord "À") (ord "Ú") c.

End Digitos.

(** Already trimmed: [strip] changes nothing. *)
Definition aparado (v : str) : Prop := strip v = v.

(** No line feed. *)
Definition sem_LF (v : str) : Prop := Forall (fun c => c <> LF) v.

(** White space at position [i] of [s], and a character that is not. *)
Definition branco_em (s : str) (i : nat) : Prop :=
  exists c, nth_error s i = Some c /\ isspace c = true.

Definition cheio_em (s : str) (i : nat) : Prop :=
  exists c, nth_error s i = Some c /\ isspace c = false.

(** White space, and some of it. *)
Definition brancos (w : str) : Prop :=
  w <> [] /\ Forall (fun c => isspace c = true) w.

(** No decimal digit at the start of the string (when [apos_branco])
    nor right after white space. *)
Fixpoint sem_digito_inicial (db : ucd) (apos_branco : bool) (v : str) : bool :=
  match v with
  | [] => true
  | c :: t =>
      negb (apos_branco && isdecimal db c)
      && sem_digito_inicial db (isspace c) t
  end.

(** A description that the line pattern cannot cut short: not empty, on
    one line, trimmed, and with no decimal digit at its start or right
    after white space. *)
Definition descricao_simples (db : ucd) (D : str) : Prop :=
  D <> [] /\ sem_LF D /\ aparado D /\ sem_digito_inicial db true D = true.

(** An amount as the receipts print it: one to three digits, groups of
    a period and three digits, a comma and two digits. *)
Definition quantia (db : ucd) (v : str) : Prop :=
  exists i gs f,
    v = i ++ concat (map (fun g => ord "." :: g) gs) ++ ord "," :: f
    /\ 1 <= length i <= 3 /\ Forall (digito db) i
    /\ Forall (fun g => length g = 3 /\ Forall (digito db) g) gs
    /\ length f = 2 /\ Forall (digito db) f.

(** An amount, or the hyphen that stands for none. *)
Definition quantia_ou_traco (db : ucd) (v : str) : Prop :=
  quantia db v \/ v = lit "-".

(** Matches one after the other from [start] on, none overlapping the
    one before. *)
Fixpoint em_ordem (start : nat) (ms : list mobj) : Prop :=
  match ms with
  | [] => True
  | m :: ms' =>
      start <= m_start m /\ m_start m <= m_end m /\ em_ordem (m_end m) ms'
  end.

End Forma.

(* ================================================================== *)
(** * The matcher finds matches, and always comes to an end *)
(* ================================================================== *)

Import Py Re Darf Spec Exemplos.

Section MatcherFacts.

Variable db : ucd.
Variable s : str.

Lemma takes_pos ok st st1 :
  takes s ok st st1 -> pos st1 = S (pos st) /\ pos st1 <= length s
                       /\ caps st1 = caps st.
Proof.
  intros (c & Hc & _ & ->). simpl. repeat split.
  apply Nat.le_succ_l, nth_error_Some. congruence.
Qed.

(** A match moves right by at least [min_len r], and one that moves
    ends inside the subject. *)
Lemma sem_pos r : forall st st1,
  sem db s r st st1 ->
  pos st + min_len r <= pos st1 /\ (pos st1 = pos st \/ pos st1 <= length s).
Proof.
  induction r as [i|items|r1 IH1 r2 IH2|r1 IH1 r2 IH2|lo hi g r IH|g r IH];
    simpl; intros st st1 H.
  - apply takes_pos in H. lia.
  - apply takes_pos in H. lia.
  - destruct H as (mid & H1 & H2).
    apply IH1 in H1. apply IH2 in H2. lia.
  - destruct H as [H|H]; [apply IH1 in H | apply IH2 in H]; lia.
  - destruct H as (n & Hlo & _ & Hn).
    assert (Hiter : pos st + n * min_len r <= pos st1
                    /\ (pos st1 = pos st \/ pos st1 <= length s)).
    { clear Hlo. revert st Hn.
      induction n as [|n IHn]; simpl; intros st Hn.
      - subst. lia.
      - destruct Hn as (c & Hc & Hn). apply IH in Hc. apply IHn in Hn. lia. }
    split; [|tauto]. destruct Hiter as [Hiter _].
    assert (lo * min_len r <= n * min_len r) by (apply Nat.mul_le_mono_r; lia).
    lia.
  - destruct H as (mid & H & ->). apply IH in H. simpl. lia.
Qed.

Lemma sem_inside r st st1 :
  sem db s r st st1 -> pos st <= length s ->
  pos st <= pos st1 <= length s.
Proof. intros H Hin. apply sem_pos in H. lia. Qed.

(** Only groups write captures. *)
Lemma sem_groupless r : groupless r = true -> forall st st1,
  sem db s r st st1 -> caps st1 = caps st.
Proof.
  induction r as [i|items|r1 IH1 r2 IH2|r1 IH1 r2 IH2|lo hi g r IH|g r IH];
    simpl; intros Hg st st1 H; try discriminate.
  - now apply takes_pos in H.
  - now apply takes_pos in H.
  - apply andb_prop in Hg as [Hg1 Hg2]. destruct H as (mid & H1 & H2).
    rewrite (IH2 Hg2 _ _ H2). now apply IH1.
  - apply andb_prop in Hg as [Hg1 Hg2]. destruct H as [H|H]; auto.
  - destruct H as (n & _ & _ & Hn). revert st Hn.
    induction n as [|n IHn]; simpl; intros st Hn.
    + now subst.
    + destruct Hn as (c & Hc & Hn). rewrite (IHn _ Hn). now apply IH.
Qed.

Lemma step_sound ok k st x :
  step s ok k st = x -> x <> Ok None ->
  exists st1, takes s ok st st1 /\ k st1 = x.
Proof.
  unfold step, takes. intros H Hx.
  destruct (nth_error s (pos st)) as [c|] eqn:Hc; [|congruence].
  destruct (ok c) eqn:Hok; [|congruence].
  exists (advance st). split; [exists c|]; auto.
Qed.

Lemma orelse_cases a b x :
  orelse a b = x -> x <> Ok None -> a = x \/ (a = Ok None /\ b tt = x).
Proof.
  unfold orelse. destruct a as [[st|]|e]; intros; subst; auto.
Qed.

(** The rounds of a repeat: whatever the loop answers, other than a
    plain failure, is the answer of the continuation after some number
    of rounds within the bounds.  With a body that takes a character
    each round the fuel cannot give out. *)
Lemma rep_loop_sound (body : (mstate -> outcome) -> mstate -> outcome)
    (R : mstate -> mstate -> Prop) k lo hi greedy :
  (forall k' st x, body k' st = x -> x <> Ok None ->
                   exists st1, R st st1 /\ k' st1 = x) ->
  (forall st st1, R st st1 -> pos st < pos st1 <= length s) ->
  forall fuel n st x,
    length s - pos st < fuel -> within n hi ->
    rep_loop body k lo hi greedy fuel n st = x -> x <> Ok None ->
    exists j st1, iter j R st st1 /\ lo <= n + j /\ within (n + j) hi
                  /\ k st1 = x.
Proof.
  intros Hbody HR.
  induction fuel as [|fuel IH]; intros n st x Hfuel Hn H Hx; [lia|].
  simpl in H.
  assert (Hstop : (if Nat.leb lo n then k st else Ok None) = x ->
                  exists j st1, iter j R st st1 /\ lo <= n + j
                                /\ within (n + j) hi /\ k st1 = x).
  { destruct (Nat.leb lo n) eqn:Hlo; [|congruence].
    intros Hk. exists 0, st. rewrite Nat.add_0_r. simpl.
    apply Nat.leb_le in Hlo. repeat split; auto. }
  assert (Hmore : (if below n hi then body (rep_loop body k lo hi greedy fuel (S n)) st
                   else Ok None) = x ->
                  exists j st1, iter j R st st1 /\ lo <= n + j
                                /\ within (n + j) hi /\ k st1 = x).
  { destruct (below n hi) eqn:Hb; [|congruence].
    intros Hk. apply Hbody in Hk as (st1 & HR1 & Hk); [|assumption].
    pose proof (HR _ _ HR1) as Hp.
    apply IH in Hk as (j & st2 & Hj & Hlo & Hhi & Hk); [|lia| |assumption].
    - exists (S j), st2. rewrite Nat.add_succ_r. simpl. eauto 6.
    - destruct hi as [h|]; simpl in *; [apply Nat.ltb_lt in Hb; lia|exact I]. }
  destruct greedy; apply orelse_cases in H as [H|[_ H]]; auto.
Qed.

(** What [run] answers, other than a plain failure, is what the
    continuation answers at the end of some match of [r]. *)
Lemma run_sound r : productive r = true -> forall k st x,
  run db s r k st = x -> x <> Ok None ->
  exists st1, sem db s r st st1 /\ k st1 = x.
Proof.
  induction r as [i|items|r1 IH1 r2 IH2|r1 IH1 r2 IH2|lo hi g r IH|g r IH];
    cbn [run productive sem]; intros Hp k st x H Hx.
  - now apply step_sound.
  - now apply step_sound.
  - apply andb_prop in Hp as [Hp1 Hp2].
    apply (IH1 Hp1) in H as (mid & H1 & H); [|assumption].
    apply (IH2 Hp2) in H as (st1 & H2 & H); [|assumption].
    eauto.
  - apply andb_prop in Hp as [Hp1 Hp2].
    apply orelse_cases in H as [H|[_ H]]; [| |assumption].
    + apply (IH1 Hp1) in H as (st1 & H1 & H); eauto.
    + apply (IH2 Hp2) in H as (st1 & H1 & H); eauto.
  - apply andb_prop in Hp as [Hm Hp]. apply Nat.ltb_lt in Hm.
    apply rep_loop_sound with (R := sem db s r) in H
      as (j & st1 & Hj & Hlo & Hhi & H); auto.
    + exists st1. split; [exists j|]; auto.
    + intros st0 st1 H01. apply sem_pos in H01. lia.
    + destruct hi; simpl; [lia|exact I].
  - apply (IH Hp) in H as (st1 & H1 & H); [|assumption].
    exists (close g (pos st) st1). eauto.
Qed.

Lemma match_at_sound r must_advance start x :
  productive r = true ->
  match_at db s r must_advance start = x ->
  match x with
  | Ok (Some m) => match_of db s r m /\ m_start m = start
                   /\ (must_advance = true -> m_end m <> start)
  | Ok None => True
  | Err _ => False
  end.
Proof.
  intros Hp H. unfold match_at in H.
  match type of H with bind ?c _ = _ => destruct c as [[st1|]|e] eqn:Hrun end;
    simpl in H; subst x; auto.
  - apply run_sound in Hrun as (st & Hsem & Hk); [|assumption|discriminate].
    destruct (must_advance && Nat.eqb (pos st) start) eqn:Hma; [discriminate|].
    injection Hk as <-. unfold match_of. simpl. repeat split; eauto.
    intros ->. simpl in Hma. apply Nat.eqb_neq in Hma. auto.
  - apply run_sound in Hrun as (st & Hsem & Hk); [|assumption|discriminate].
    destruct (must_advance && Nat.eqb (pos st) start); discriminate.
Qed.

Lemma match_of_inside r m :
  match_of db s r m -> m_start m <= length s ->
  m_start m <= m_end m <= length s.
Proof.
  intros (st1 & Hsem & -> & _) Hin. now apply sem_inside in Hsem.
Qed.

Lemma search_loop_sound r : productive r = true ->
  forall n must_advance start x,
  search_loop db s r must_advance n start = x ->
  match x with
  | Ok (Some m) => match_of db s r m /\ start <= m_start m < start + n
                   /\ (must_advance = true -> m_start m = start ->
                       m_end m <> start)
  | Ok None => True
  | Err _ => False
  end.
Proof.
  intros Hp. induction n as [|n IH]; intros ma start x H; simpl in H.
  - now subst.
  - pose proof (@match_at_sound r ma start _ Hp eq_refl) as Hm.
    destruct (match_at db s r ma start) as [[m|]|e]; simpl in H;
      [| |contradiction].
    + subst x. destruct Hm as (Hm & Hs & Hadv). repeat split; auto; lia.
    + apply IH in H. destruct x as [[m|]|e]; auto.
      destruct H as (Hm' & Hs & _). repeat split; auto; lia.
Qed.

(** A search answers with the first position at which an attempt
    succeeds. *)
Lemma search_loop_first r m : forall j n start,
  (forall i, i < j -> match_at db s r false (start + i) = Ok None) ->
  match_at db s r false (start + j) = Ok (Some m) ->
  j < n ->
  search_loop db s r false n start = Ok (Some m).
Proof.
  induction j as [|j IH]; intros n start Hnone Hm Hn;
    (destruct n as [|n]; [lia|]); simpl.
  - rewrite Nat.add_0_r in Hm. now rewrite Hm.
  - rewrite <- (Nat.add_0_r start) at 1. rewrite Hnone by lia. simpl.
    apply IH; [| |lia].
    + intros i Hi. replace (S start + i) with (start + S i) by lia.
      apply Hnone. lia.
    + now replace (S start + j) with (start + S j) by lia.
Qed.

(** [finditer] does not run out of fuel, and lists matches. *)
Lemma finditer_loop_sound r : productive r = true ->
  forall fuel (must_advance : bool) start,
  start <= length s ->
  2 * (length s - start) + (if must_advance then 0 else 1) < fuel ->
  exists ms, finditer_loop db s fuel r must_advance start = Ok ms
             /\ Forall (fun m => match_of db s r m /\ m_start m <= length s) ms.
Proof.
  intros Hp. induction fuel as [|fuel IH]; intros ma start Hin Hfuel; [lia|].
  simpl. unfold search_from.
  pose proof (@search_loop_sound r Hp (S (length s - start)) ma start _ eq_refl)
    as Hm.
  destruct (search_loop db s r ma (S (length s - start)) start) as [[m|]|e];
    simpl; [| |contradiction].
  - destruct Hm as (Hm & Hs & Hadv).
    assert (Hms : m_start m <= length s) by lia.
    pose proof (match_of_inside Hm Hms) as He.
    assert (Hnext : exists ms,
               finditer_loop db s fuel r (Nat.eqb (m_end m) (m_start m)) (m_end m)
               = Ok ms
               /\ Forall (fun m => match_of db s r m /\ m_start m <= length s) ms).
    { apply IH; [lia|].
      destruct (Nat.eqb (m_end m) (m_start m)) eqn:Heq.
      - apply Nat.eqb_eq in Heq.
        destruct (Nat.eq_dec (m_start m) start) as [Hst|Hst]; [|lia].
        destruct ma; [|lia]. exfalso. apply Hadv; auto. lia.
      - apply Nat.eqb_neq in Heq. lia. }
    destruct Hnext as (ms & Hnext & Hall). rewrite Hnext. simpl. eauto.
  - eauto.
Qed.

Lemma finditer_sound r : productive r = true ->
  exists ms, finditer db s r = Ok ms
             /\ Forall (fun m => match_of db s r m /\ m_start m <= length s) ms.
Proof.
  intros Hp. apply finditer_loop_sound; auto; lia.
Qed.

Lemma search_sound r x : productive r = true ->
  search db s r = x ->
  match x with
  | Ok (Some m) => match_of db s r m /\ m_start m <= length s
  | Ok None => True
  | Err _ => False
  end.
Proof.
  intros Hp H. apply search_loop_sound in H; [|assumption].
  destruct x as [[m|]|e]; auto. destruct H as (Hm & Hs & _). split; auto. lia.
Qed.

End MatcherFacts.

(** ** The matcher overlooks no match *)

Section Completo.

Variable db : ucd.
Variable s : str.

Lemma orelse_none a b : orelse a b = Ok None -> a = Ok None /\ b tt = Ok None.
Proof. unfold orelse. destruct a as [[st|]|e]; intros H; try discriminate; auto. Qed.

(** When the loop of a repeat fails, the continuation fails after every
    number of rounds within the bounds. *)
Lemma rep_loop_complete (body : (mstate -> outcome) -> mstate -> outcome)
    (R : mstate -> mstate -> Prop) k lo hi greedy :
  (forall k' st, body k' st = Ok None ->
                 forall st1, R st st1 -> k' st1 = Ok None) ->
  forall fuel n st,
    rep_loop body k lo hi greedy fuel n st = Ok None ->
    forall j st1, iter j R st st1 -> lo <= n + j -> within (n + j) hi ->
                  k st1 = Ok None.
Proof.
  intros Hbody. induction fuel as [|fuel IH]; intros n st H; [discriminate|].
  simpl in H.
  assert (Hboth : (if below n hi
                   then body (rep_loop body k lo hi greedy fuel (S n)) st
                   else Ok None) = Ok None
                  /\ (if Nat.leb lo n then k st else Ok None) = Ok None).
  { destruct greedy; apply orelse_none in H; tauto. }
  destruct Hboth as [Hmore Hstop].
  intros [|j] st1 Hj Hlo Hhi; simpl in Hj.
  - subst st1. rewrite Nat.add_0_r in Hlo.
    apply Nat.leb_le in Hlo. now rewrite Hlo in Hstop.
  - destruct Hj as (c & Hc & Hj).
    assert (Hb : below n hi = true).
    { destruct hi as [h|]; simpl in *; [apply Nat.ltb_lt; lia|reflexivity]. }
    rewrite Hb in Hmore.
    apply (IH (S n) c (Hbody _ _ Hmore c Hc) j st1 Hj); [lia|].
    now replace (S n + j) with (n + S j) by lia.
Qed.

(** When [run] fails, the continuation fails at the end of every match
    of [r]: no match is overlooked. *)
Lemma run_complete r : forall k st,
  run db s r k st = Ok None ->
  forall st1, sem db s r st st1 -> k st1 = Ok None.
Proof.
  induction r as [i|items|r1 IH1 r2 IH2|r1 IH1 r2 IH2|lo hi g r IH|g r IH];
    cbn [run sem]; intros k st H st1 Hsem.
  - destruct Hsem as (c & Hc & Hok & ->). unfold step in H.
    now rewrite Hc, Hok in H.
  - destruct Hsem as (c & Hc & Hok & ->). unfold step in H.
    now rewrite Hc, Hok in H.
  - destruct Hsem as (mid & H1 & H2).
    apply (IH2 k mid); [|assumption]. now apply (IH1 _ st).
  - apply orelse_none in H as [Ha Hb].
    destruct Hsem as [Hsem|Hsem]; [now apply (IH1 k st)|now apply (IH2 k st)].
  - destruct Hsem as (n & Hlo & Hhi & Hn).
    eapply rep_loop_complete with (R := sem db s r) (n := 0); eauto.
  - destruct Hsem as (mid & Hsem & ->).
    now apply (IH (fun st' => k (close g (pos st) st')) st).
Qed.

(** An attempt fails only where the pattern has no match. *)
Lemma match_at_complete r start :
  match_at db s r false start = Ok None ->
  forall st1, ~ sem db s r {| pos := start; caps := [] |} st1.
Proof.
  unfold match_at. intros H st1 Hsem.
  match type of H with bind ?c _ = _ => destruct c as [[st|]|e] eqn:Hrun end;
    simpl in H; try discriminate.
  eapply run_complete in Hrun; [|exact Hsem]. discriminate.
Qed.

End Completo.

Section Busca.

Variable db : ucd.
Variable s : str.






End Busca.

(* ================================================================== *)
(** * The groups of the two patterns *)
(* ================================================================== *)

Section PatternFacts.

Variable db : ucd.
Variable s : str.

Lemma sem_group_then g r rest st st1 :
  groupless r = true ->
  sem db s (Seq (Group g r) rest) st st1 ->
  exists mid, sem db s rest mid st1
              /\ caps mid = (g, (pos st, pos mid)) :: caps st
              /\ pos st + min_len r <= pos mid
              /\ (pos mid = pos st \/ pos mid <= length s).
Proof.
  intros Hg (mid & (mid0 & H0 & ->) & Hrest).
  exists (close g (pos st) mid0). simpl.
  assert (Hc := H0). apply sem_groupless in Hc; [|exact Hg]. rewrite Hc.
  apply sem_pos in H0. intuition.
Qed.

Lemma sem_plain_then r rest st st1 :
  groupless r = true ->
  sem db s (Seq r rest) st st1 ->
  exists mid, sem db s rest mid st1
              /\ caps mid = caps st
              /\ pos st + min_len r <= pos mid
              /\ (pos mid = pos st \/ pos mid <= length s).
Proof.
  intros Hg (mid & H0 & Hrest). exists mid.
  assert (Hc := H0). apply sem_groupless in Hc; [|exact Hg]. rewrite Hc.
  apply sem_pos in H0. intuition.
Qed.

Lemma sem_group_last g r st st1 :
  groupless r = true ->
  sem db s (Group g r) st st1 ->
  caps st1 = (g, (pos st, pos st1)) :: caps st
  /\ pos st + min_len r <= pos st1
  /\ (pos st1 = pos st \/ pos st1 <= length s).
Proof.
  intros Hg (mid0 & H0 & ->). simpl.
  assert (Hc := H0). apply sem_groupless in Hc; [|exact Hg]. rewrite Hc.
  apply sem_pos in H0. intuition.
Qed.

(** A match of [pattern_linha] closes its six groups, in order; the
    amounts of the third and the sixth take four characters or more. *)
Lemma linha_spans m :
  match_of db s pattern_linha m ->
  exists a1 b1 a2 b2 a3 b3 a4 b4 a5 b5 a6 b6,
    m_caps m = [(total, (a6, b6)); (multa, (a5, b5)); (juros, (a4, b4));
                (principal, (a3, b3)); (descricao, (a2, b2));
                (codigo, (a1, b1))]
    /\ a1 + 4 <= b1 /\ b1 <= length s
    /\ a3 + 4 <= b3 /\ b3 <= length s
    /\ a6 + 4 <= b6 /\ b6 <= length s.
Proof.
  intros (st1 & Hsem & _ & ->). unfold pattern_linha in Hsem.
  apply sem_group_then in Hsem as (s1 & Hsem & C1 & P1 & I1); [|reflexivity].
  apply sem_plain_then in Hsem as (s2 & Hsem & C2 & P2 & I2); [|reflexivity].
  apply sem_group_then in Hsem as (s3 & Hsem & C3 & P3 & I3); [|reflexivity].
  apply sem_plain_then in Hsem as (s4 & Hsem & C4 & P4 & I4); [|reflexivity].
  apply sem_group_then in Hsem as (s5 & Hsem & C5 & P5 & I5); [|reflexivity].
  apply sem_plain_then in Hsem as (s6 & Hsem & C6 & P6 & I6); [|reflexivity].
  apply sem_group_then in Hsem as (s7 & Hsem & C7 & P7 & I7); [|reflexivity].
  apply sem_plain_then in Hsem as (s8 & Hsem & C8 & P8 & I8); [|reflexivity].
  apply sem_group_then in Hsem as (s9 & Hsem & C9 & P9 & I9); [|reflexivity].
  apply sem_plain_then in Hsem as (s10 & Hsem & C10 & P10 & I10); [|reflexivity].
  apply sem_group_last in Hsem as (C11 & P11 & I11); [|reflexivity].
  rewrite C11, C10, C9, C8, C7, C6, C5, C4, C3, C2, C1. simpl in *.
  do 12 eexists. split; [reflexivity|]. lia.
Qed.

(** A match of [pattern_data_banco] closes its two groups. *)
Lemma data_banco_spans m :
  match_of db s pattern_data_banco m ->
  exists a1 b1 a2 b2, m_caps m = [(2, (a2, b2)); (1, (a1, b1))].
Proof.
  intros (st1 & Hsem & _ & ->). unfold pattern_data_banco in Hsem.
  apply sem_group_then in Hsem as (s1 & Hsem & C1 & _); [|reflexivity].
  apply sem_plain_then in Hsem as (s2 & Hsem & C2 & _); [|reflexivity].
  apply sem_group_last in Hsem as (C3 & _); [|reflexivity].
  rewrite C3, C2, C1. simpl. eauto.
Qed.

Lemma length_slice a b : b <= length s -> length (slice a b s) = b - a.
Proof.
  intros Hb. unfold slice. rewrite length_firstn, length_skipn. lia.
Qed.

End PatternFacts.

(* ================================================================== *)
(** * [extrair_dados] page by page *)
(* ================================================================== *)

Section ExtrairFacts.

Variable db : ucd.

Lemma productive_linha : productive pattern_linha = true.
Proof. reflexivity. Qed.

Lemma productive_data_banco : productive pattern_data_banco = true.
Proof. reflexivity. Qed.

Lemma data_banco_ok s m :
  match_of db s pattern_data_banco m ->
  exists g1 g2, group s m 1 = Some g1 /\ group s m 2 = Some g2
                /\ data_banco s m = Ok (g1, strip g2).
Proof.
  intros Hm. apply data_banco_spans in Hm as (a1 & b1 & a2 & b2 & Hc).
  unfold data_banco, group_str, group. rewrite Hc. simpl. eauto.
Qed.

(** The first step of the loop body raises nothing. *)
Lemma data_banco_da_pagina_ok texto :
  exists data_arrec banco,
    data_banco_da_pagina db texto = Ok (data_arrec, banco).
Proof.
  unfold data_banco_da_pagina.
  pose proof (@search_sound db (rodape_de texto) _ _ productive_data_banco eq_refl)
    as H1.
  destruct (search db (rodape_de texto) pattern_data_banco) as [[m|]|e];
    simpl; [| |contradiction].
  - destruct H1 as [H1 _]. apply data_banco_ok in H1 as (g1 & g2 & _ & _ & ->).
    eauto.
  - pose proof (@search_sound db (texto_flat_de texto) _ _
                  productive_data_banco eq_refl) as H2.
    destruct (search db (texto_flat_de texto) pattern_data_banco) as [[m|]|e];
      simpl; [| |contradiction].
    + destruct H2 as [H2 _].
      apply data_banco_ok in H2 as (g1 & g2 & _ & _ & ->). eauto.
    + eauto.
Qed.

(** The groups of a match of [pattern_linha] as strings. *)
Lemma linha_groups texto m :
  match_of db texto pattern_linha m ->
  exists gc gd gp gj gm gt,
    group texto m codigo = Some gc /\ group texto m descricao = Some gd
    /\ group texto m principal = Some gp /\ group texto m juros = Some gj
    /\ group texto m multa = Some gm /\ group texto m total = Some gt
    /\ 4 <= length gc /\ 4 <= length gp /\ 4 <= length gt.
Proof.
  intros Hm.
  apply linha_spans in Hm
    as (a1 & b1 & a2 & b2 & a3 & b3 & a4 & b4 & a5 & b5 & a6 & b6 & Hc & H).
  unfold group. rewrite Hc. simpl.
  do 6 eexists. repeat (split; [reflexivity|]).
  rewrite !length_slice by lia. lia.
Qed.

(** The body of the inner loop raises nothing: it skips the match or
    builds the dictionary from the six groups. *)
Lemma linha_ok data_arrec banco texto m :
  match_of db texto pattern_linha m ->
  exists gc gd gp gj gm gt,
    group texto m codigo = Some gc /\ group texto m descricao = Some gd
    /\ group texto m principal = Some gp /\ group texto m juros = Some gj
    /\ group texto m multa = Some gm /\ group texto m total = Some gt
    /\ 4 <= length gc /\ 4 <= length gp /\ 4 <= length gt
    /\ linha db data_arrec banco texto m
       = Ok (if excecao db (strip gd) then None
             else Some {| Codigo_do_DARF := gc;
                          Descricao := strip gd;
                          Data_de_Arrecadacao := data_arrec;
                          Banco := banco;
                          Valor_Principal := decimal gp;
                          Juros := decimal_ou_zero gj;
                          Multa := decimal_ou_zero gm;
                          Total := decimal gt |}).
Proof.
  intros Hm.
  apply linha_groups in Hm
    as (gc & gd & gp & gj & gm & gt & Hc & Hd & Hp & Hj & Hmu & Ht & Hlen).
  exists gc, gd, gp, gj, gm, gt. repeat (split; [assumption|]).
  split; [tauto|]. split; [tauto|]. split; [tauto|].
  unfold linha, group_str. rewrite Hd. simpl.
  destruct (excecao db (strip gd)); [reflexivity|].
  rewrite Hc, Hp, Hj, Hmu, Ht. reflexivity.
Qed.

Lemma for_each_append data_arrec banco texto ms : forall registros,
  Forall (fun m => match_of db texto pattern_linha m) ms ->
  for_each ms (append_linha db data_arrec banco texto) registros
  = Ok (registros ++ aceitos db data_arrec banco texto ms).
Proof.
  induction ms as [|m ms IH]; intros registros Hall; simpl.
  - now rewrite app_nil_r.
  - inversion Hall as [|? ? Hm Hms]; subst.
    unfold append_linha at 1.
    destruct (linha_ok data_arrec banco Hm)
      as (gc & gd & gp & gj & gm & gt & _ & _ & _ & _ & _ & _ & _ & _ & _ & ->).
    simpl. destruct (excecao db (strip gd)); simpl.
    + now apply IH.
    + rewrite IH by assumption. now rewrite <- app_assoc.
Qed.

(** One round of the outer loop appends the rows of the page, which
    are made from its text alone. *)
Lemma pagina_ok texto :
  exists data_arrec banco ms,
    data_banco_da_pagina db texto = Ok (data_arrec, banco)
    /\ finditer db texto pattern_linha = Ok ms
    /\ Forall (fun m => match_of db texto pattern_linha m) ms
    /\ forall registros,
         pagina db registros texto
         = Ok (registros ++ aceitos db data_arrec banco texto ms).
Proof.
  destruct (data_banco_da_pagina_ok texto) as (data_arrec & banco & Hdb).
  destruct (@finditer_sound db texto _ productive_linha) as (ms & Hms & Hall).
  assert (Hall' : Forall (fun m => match_of db texto pattern_linha m) ms).
  { eapply Forall_impl; [|exact Hall]. simpl. tauto. }
  exists data_arrec, banco, ms. repeat split; auto.
  intros registros. unfold pagina. rewrite Hdb, Hms. simpl.
  now apply for_each_append.
Qed.

End ExtrairFacts.

(* ================================================================== *)
(** * The matcher looks at the subject only from where it starts *)
(* ================================================================== *)

Section Shift.

Variables db1 db2 : ucd.
Variable p s : str.

Hypothesis same_digits :
  forall c, In c s -> isdecimal db2 c = isdecimal db1 c.

(* The offset of [s] in [p ++ s]. *)
Local Notation "'off'" := (length p) (only parsing).

Lemma shift_advance st : advance (shift off st) = shift off (advance st).
Proof. unfold advance, shift. simpl. f_equal. lia. Qed.

Lemma accepts_same i c : In c s -> accepts db2 i c = accepts db1 i c.
Proof. intros Hc. destruct i; simpl; auto. Qed.

Lemma step_shift ok1 ok2 k1 k2 :
  (forall c, In c s -> ok2 c = ok1 c) ->
  (forall st, k2 (shift off st) = shift_outcome off (k1 st)) ->
  forall st, step (p ++ s) ok2 k2 (shift off st)
             = shift_outcome off (step s ok1 k1 st).
Proof.
  intros Hok Hk st. unfold step. simpl pos.
  rewrite nth_error_app2 by lia.
  replace (off + pos st - length p) with (pos st) by lia.
  destruct (nth_error s (pos st)) as [c|] eqn:Hc; [|reflexivity].
  rewrite (Hok c) by (eapply nth_error_In; eauto).
  destruct (ok1 c); [|reflexivity].
  rewrite shift_advance. apply Hk.
Qed.

Lemma orelse_shift a1 a2 b1 b2 :
  a2 = shift_outcome off a1 -> b2 tt = shift_outcome off (b1 tt) ->
  orelse a2 b2 = shift_outcome off (orelse a1 b1).
Proof.
  intros -> Hb. destruct a1 as [[st|]|e]; simpl; auto.
Qed.

Lemma rep_loop_shift body1 body2 k1 k2 lo hi greedy :
  (forall k1' k2',
     (forall st, k2' (shift off st) = shift_outcome off (k1' st)) ->
     forall st, body2 k2' (shift off st) = shift_outcome off (body1 k1' st)) ->
  (forall st, k2 (shift off st) = shift_outcome off (k1 st)) ->
  forall fuel m st,
    rep_loop body2 k2 lo hi greedy fuel m (shift off st)
    = shift_outcome off (rep_loop body1 k1 lo hi greedy fuel m st).
Proof.
  intros Hbody Hk. induction fuel as [|fuel IH]; intros m st; [reflexivity|].
  simpl.
  assert (Hmore : (if below m hi
                   then body2 (rep_loop body2 k2 lo hi greedy fuel (S m))
                          (shift off st)
                   else Ok None)
                  = shift_outcome off
                      (if below m hi
                       then body1 (rep_loop body1 k1 lo hi greedy fuel (S m)) st
                       else Ok None)).
  { destruct (below m hi); [|reflexivity]. apply Hbody. intros st'. apply IH. }
  assert (Hstop : (if Nat.leb lo m then k2 (shift off st) else Ok None)
                  = shift_outcome off (if Nat.leb lo m then k1 st else Ok None)).
  { destruct (Nat.leb lo m); [apply Hk|reflexivity]. }
  destruct greedy; apply orelse_shift; assumption.
Qed.

(** Matching in [p ++ s] from behind [p] is matching in [s], moved. *)
Lemma run_shift r : forall k1 k2,
  (forall st, k2 (shift off st) = shift_outcome off (k1 st)) ->
  forall st, run db2 (p ++ s) r k2 (shift off st)
             = shift_outcome off (run db1 s r k1 st).
Proof.
  induction r as [i|items|r1 IH1 r2 IH2|r1 IH1 r2 IH2|lo hi g r IH|g r IH];
    cbn [run]; intros k1 k2 Hk st.
  - apply step_shift; auto. intros c Hc. now apply accepts_same.
  - apply step_shift; auto. intros c Hc.
    induction items as [|i items IHi]; simpl; [reflexivity|].
    now rewrite accepts_same, IHi.
  - apply IH1. intros st'. now apply IH2.
  - apply orelse_shift; [now apply IH1 | now apply IH2].
  - replace (length (p ++ s) - pos (shift off st)) with (length s - pos st)
      by (rewrite length_app; simpl; lia).
    apply rep_loop_shift; auto.
  - apply IH. intros st'. apply (Hk (close g (pos st) st')).
Qed.

Lemma match_at_shift r must_advance start :
  match_at db2 (p ++ s) r must_advance (off + start)
  = shift_found off (match_at db1 s r must_advance start).
Proof.
  unfold match_at.
  change {| pos := off + start; caps := [] |}
    with (shift off {| pos := start; caps := [] |}).
  rewrite run_shift
    with (k1 := fun st => if must_advance && Nat.eqb (pos st) start
                          then Ok None else Ok (Some st)).
  - destruct (run db1 s r _ _) as [[st|]|e]; reflexivity.
  - intros st. simpl.
    replace (Nat.eqb (off + pos st) (off + start))
      with (Nat.eqb (pos st) start).
    + destruct (must_advance && Nat.eqb (pos st) start); reflexivity.
    + destruct (Nat.eqb_spec (pos st) start),
        (Nat.eqb_spec (off + pos st) (off + start)); auto; lia.
Qed.

End Shift.

(* ================================================================== *)
(** * Text below U+0100 *)
(* ================================================================== *)

(** On text that stays below U+0100 the script does the same with every
    character database that is right about that range. *)

Section SameDigits.

Variables db1 db2 : ucd.
Variable s : str.

Hypothesis same_digits :
  forall c, In c s -> isdecimal db2 c = isdecimal db1 c.

Lemma shift_obj_0 m : shift_obj 0 m = m.
Proof.
  destruct m as [a b cs]. unfold shift_obj. simpl. f_equal.
  induction cs as [|[g [x y]] cs IH]; simpl; congruence.
Qed.

Lemma match_at_same r must_advance start :
  match_at db2 s r must_advance start = match_at db1 s r must_advance start.
Proof.
  pose proof (@match_at_shift db1 db2 [] s same_digits r must_advance start)
    as H.
  simpl in H. rewrite H.
  destruct (match_at db1 s r must_advance start) as [[m|]|e]; simpl; auto.
  now rewrite shift_obj_0.
Qed.

Lemma search_from_same r must_advance start :
  search_from db2 s r must_advance start = search_from db1 s r must_advance start.
Proof.
  unfold search_from. generalize (S (length s - start)).
  intros k. revert must_advance start.
  induction k as [|k IH]; intros ma start; simpl; [reflexivity|].
  rewrite match_at_same.
  destruct (match_at db1 s r ma start) as [[m|]|e]; simpl; auto.
Qed.

Lemma search_same r : search db2 s r = search db1 s r.
Proof. apply search_from_same. Qed.

Lemma finditer_loop_same r fuel : forall must_advance start,
  finditer_loop db2 s fuel r must_advance start
  = finditer_loop db1 s fuel r must_advance start.
Proof.
  induction fuel as [|fuel IH]; intros ma start; simpl; [reflexivity|].
  rewrite search_from_same.
  destruct (search_from db1 s r ma start) as [[m|]|e]; simpl; auto.
  now rewrite IH.
Qed.

Lemma finditer_same r : finditer db2 s r = finditer db1 s r.
Proof. apply finditer_loop_same. Qed.

End SameDigits.

Section Latin1.

Lemma latin1_ucd_compatible : latin1_compatible latin1_ucd.
Proof. split; reflexivity. Qed.

Lemma Forall_lstrip (P : cp -> Prop) s : Forall P s -> Forall P (lstrip s).
Proof.
  induction 1 as [|c s Hc Hs IH]; simpl; [constructor|].
  destruct (isspace c); auto.
Qed.

Lemma Forall_strip (P : cp -> Prop) s : Forall P s -> Forall P (strip s).
Proof.
  intros H. unfold strip, rstrip.
  apply Forall_rev, Forall_lstrip, Forall_rev, Forall_lstrip, H.
Qed.

Lemma Forall_replace (P : cp -> Prop) old new s :
  Forall P new -> Forall P s -> Forall P (replace old new s).
Proof.
  intros Hnew. induction 1 as [|c s Hc Hs IH]; simpl; [constructor|].
  apply Forall_app. split; [|assumption].
  destruct (c =? old)%N; auto.
Qed.

Lemma Forall_join (P : cp -> Prop) sep parts :
  Forall P sep -> Forall (Forall P) parts -> Forall P (join sep parts).
Proof.
  intros Hsep. induction 1 as [|x parts Hx Hparts IH]; simpl; [constructor|].
  destruct parts as [|y parts]; [assumption|].
  apply Forall_app. split; [assumption|]. apply Forall_app. auto.
Qed.

Lemma Forall_splitlines_from (P : cp -> Prop) s : forall after_cr cur,
  Forall P cur -> Forall P s ->
  Forall (Forall P) (splitlines_from after_cr cur s).
Proof.
  induction s as [|c s IH]; intros after_cr cur Hcur Hs; simpl.
  - destruct cur; [constructor|constructor; [assumption|constructor]].
  - inversion Hs as [|? ? Hc Hs']; subst.
    destruct (after_cr && (c =? LF)%N); [auto|].
    destruct (islinebreak c).
    + constructor; auto.
    + apply IH; auto. apply Forall_app. auto.
Qed.

Lemma Forall_skipn (A : Type) (P : A -> Prop) k (l : list A) :
  Forall P l -> Forall P (skipn k l).
Proof.
  intros H. rewrite <- (firstn_skipn k l) in H. now apply Forall_app in H.
Qed.

Lemma Forall_firstn (A : Type) (P : A -> Prop) k (l : list A) :
  Forall P l -> Forall P (firstn k l).
Proof.
  intros H. rewrite <- (firstn_skipn k l) in H. now apply Forall_app in H.
Qed.

Lemma Forall_slice_from (A : Type) (P : A -> Prop) i (l : list A) :
  Forall P l -> Forall P (slice_from i l).
Proof. apply Forall_skipn. Qed.

Lemma Forall_slice (P : cp -> Prop) a b s :
  Forall P s -> Forall P (slice a b s).
Proof. intros H. now apply Forall_firstn, Forall_skipn. Qed.

Lemma latin1_rodape texto : Forall latin1 texto -> Forall latin1 (rodape_de texto).
Proof.
  intros H. unfold rodape_de.
  apply Forall_strip, Forall_join.
  - repeat constructor.
  - apply Forall_slice_from, Forall_splitlines_from; auto.
Qed.

Lemma latin1_texto_flat texto :
  Forall latin1 texto -> Forall latin1 (texto_flat_de texto).
Proof.
  intros H. apply Forall_replace; auto. repeat constructor.
Qed.

Variable db : ucd.
Hypothesis compat : latin1_compatible db.

Lemma latin1_digits s :
  Forall latin1 s ->
  forall c, In c s -> isdecimal db c = isdecimal latin1_ucd c.
Proof.
  intros H c Hc. rewrite Forall_forall in H. now apply compat, H.
Qed.

Lemma latin1_excecao descricao :
  Forall latin1 descricao -> excecao db descricao = excecao latin1_ucd descricao.
Proof.
  intros H. destruct compat as [_ Hlower]. unfold excecao.
  rewrite (Hlower descricao H).
  assert (Hterms : Forall (Forall latin1) EXCECOES_DESCRICAO).
  { repeat constructor. }
  induction Hterms as [|term terms Hterm _ IH]; simpl; [reflexivity|].
  now rewrite IH, (Hlower term Hterm).
Qed.

Lemma latin1_data_banco_da_pagina texto :
  Forall latin1 texto ->
  data_banco_da_pagina db texto = data_banco_da_pagina latin1_ucd texto.
Proof.
  intros H. unfold data_banco_da_pagina.
  rewrite (@search_same latin1_ucd db (rodape_de texto))
    by (apply latin1_digits, latin1_rodape, H).
  rewrite (@search_same latin1_ucd db (texto_flat_de texto))
    by (apply latin1_digits, latin1_texto_flat, H).
  reflexivity.
Qed.

Lemma latin1_linha data_arrec banco texto m :
  Forall latin1 texto ->
  linha db data_arrec banco texto m = linha latin1_ucd data_arrec banco texto m.
Proof.
  intros H. unfold linha, group_str.
  destruct (group texto m descricao) as [gd|] eqn:Hd; [|reflexivity]. simpl.
  rewrite latin1_excecao; [reflexivity|].
  apply Forall_strip. unfold group in Hd.
  destruct (span descricao (m_caps m)) as [[a b]|]; [|discriminate].
  injection Hd as <-. now apply Forall_slice.
Qed.

Lemma for_each_same (A S : Type) (body1 body2 : S -> A -> exc S) xs :
  (forall st x, body1 st x = body2 st x) ->
  forall st, for_each xs body1 st = for_each xs body2 st.
Proof.
  intros Hb. induction xs as [|x xs IH]; intros st; simpl; [reflexivity|].
  rewrite Hb. destruct (body2 st x); simpl; auto.
Qed.

Lemma latin1_pagina registros texto :
  Forall latin1 texto ->
  pagina db registros texto = pagina latin1_ucd registros texto.
Proof.
  intros H. unfold pagina.
  rewrite latin1_data_banco_da_pagina by assumption.
  rewrite (@finditer_same latin1_ucd db texto) by (apply latin1_digits, H).
  destruct (data_banco_da_pagina latin1_ucd texto) as [[data_arrec banco]|e];
    simpl; [|reflexivity].
  destruct (finditer latin1_ucd texto pattern_linha) as [ms|e]; simpl;
    [|reflexivity].
  apply for_each_same. intros st m. unfold append_linha.
  now rewrite latin1_linha.
Qed.

(** The whole extraction, on a document below U+0100. *)
Lemma latin1_extrair_dados doc :
  Forall (Forall latin1) doc ->
  extrair_dados db doc = extrair_dados latin1_ucd doc.
Proof.
  unfold extrair_dados. generalize (@nil registro) as registros.
  induction doc as [|texto doc IH]; intros registros H; simpl; [reflexivity|].
  inversion H as [|? ? Ht Hdoc]; subst.
  rewrite latin1_pagina by assumption.
  destruct (pagina latin1_ucd registros texto); simpl; auto.
Qed.

End Latin1.

(* ================================================================== *)
(** * The claims *)
(* ================================================================== *)

Lemma abaixo_de_256_latin1 doc :
  forallb abaixo_de_256 doc = true -> Forall (Forall latin1) doc.
Proof.
  intros H. rewrite forallb_forall in H. apply Forall_forall. intros s Hs.
  apply H in Hs. unfold abaixo_de_256 in Hs. rewrite forallb_forall in Hs.
  apply Forall_forall. intros c Hc. now apply N.ltb_lt, Hs.
Qed.

Ltac on_latin1 compat :=
  rewrite (latin1_extrair_dados compat)
    by (apply abaixo_de_256_latin1; vm_compute; reflexivity).

(** C1.  The line "1234 IMPOSTO DE RENDA 1.234,56 - - 1.234,56", given as
    the text of the only page, yields exactly one row: code "1234",
    description "IMPOSTO DE RENDA", principal "1234.56", interest "0.00",
    penalty "0.00", total "1234.56" (and no date or bank). *)
Theorem C1_example_row (db : ucd) :
  latin1_compatible db ->
  extrair_dados db [lit "1234 IMPOSTO DE RENDA 1.234,56 - - 1.234,56"]
  = Ok [{| Codigo_do_DARF := lit "1234";
           Descricao := lit "IMPOSTO DE RENDA";
           Data_de_Arrecadacao := lit "";
           Banco := lit "";
           Valor_Principal := lit "1234.56";
           Juros := lit "0.00";
           Multa := lit "0.00";
           Total := lit "1234.56" |}].
Proof.
  intros compat. on_latin1 compat. vm_compute. reflexivity.
Qed.

Lemma C1_example_row_witness :
  extrair_dados latin1_ucd [linha_darf] = Ok [registro_darf].
Proof.
  exact (C1_example_row latin1_ucd_compatible).
Defined.

(** C9.  The separators of the line pattern accept line breaks: there is
    a page text, the six fields of a record on six lines of their own,
    from which the record is extracted all the same. *)
Theorem C9_fields_on_separate_lines (db : ucd) :
  latin1_compatible db ->
  splitlines campos_em_linhas
  = [lit "1234"; lit "IMPOSTO DE RENDA"; lit "1.234,56"; lit "-"; lit "-";
     lit "1.234,56"]
  /\ extrair_dados db [campos_em_linhas]
     = Ok [{| Codigo_do_DARF := lit "1234";
              Descricao := lit "IMPOSTO DE RENDA";
              Data_de_Arrecadacao := lit "";
              Banco := lit "";
              Valor_Principal := lit "1234.56";
              Juros := lit "0.00";
              Multa := lit "0.00";
              Total := lit "1234.56" |}].
Proof.
  intros compat. split; [vm_compute; reflexivity|].
  on_latin1 compat. vm_compute. reflexivity.
Qed.

Lemma C9_fields_on_separate_lines_witness :
  length (splitlines campos_em_linhas) = 6
  /\ extrair_dados latin1_ucd [campos_em_linhas] = Ok [registro_darf].
Proof.
  destruct (C9_fields_on_separate_lines latin1_ucd_compatible) as [Hl Hr].
  split; [rewrite Hl; reflexivity | exact Hr].
Defined.

(** C10.  The code is not tied to the start of a number: from
    "12345 DESC 1,00 - - 1,00" a row is extracted whose code is "2345",
    the last four digits of the number that starts the line. *)
Theorem C10_code_inside_longer_number (db : ucd) :
  latin1_compatible db ->
  extrair_dados db [lit "12345 DESC 1,00 - - 1,00"]
  = Ok [{| Codigo_do_DARF := lit "2345";
           Descricao := lit "DESC";
           Data_de_Arrecadacao := lit "";
           Banco := lit "";
           Valor_Principal := lit "1.00";
           Juros := lit "0.00";
           Multa := lit "0.00";
           Total := lit "1.00" |}].
Proof.
  intros compat. on_latin1 compat. vm_compute. reflexivity.
Qed.

Lemma C10_code_inside_longer_number_witness :
  exists r, extrair_dados latin1_ucd [codigo_longo] = Ok [r]
            /\ Codigo_do_DARF r = lit "2345".
Proof.
  eexists. split.
  - exact (C10_code_inside_longer_number latin1_ucd_compatible).
  - reflexivity.
Defined.

Lemma replace_nothing old v :
  replace old [] v = filter (fun c => negb (c =? old)%N) v.
Proof.
  induction v as [|c v IH]; simpl; [reflexivity|].
  destruct (c =? old)%N; simpl; now rewrite IH.
Qed.

Lemma replace_one old new v :
  replace old [new] v = map (fun c => if (c =? old)%N then new else c) v.
Proof.
  induction v as [|c v IH]; simpl; [reflexivity|].
  destruct (c =? old)%N; simpl; now rewrite IH.
Qed.

(** The two [replace] calls of the script are the normalisation of the
    specification. *)
Lemma decimal_normalizado v : decimal v = normalizado v.
Proof.
  unfold decimal, normalizado.
  change (lit "") with (@nil cp). change (lit ".") with [ord "."].
  now rewrite replace_nothing, replace_one.
Qed.

Lemma eqb_eq a : forall b, Py.eqb a b = true <-> a = b.
Proof.
  induction a as [|x a IH]; intros [|y b]; simpl; split; try congruence; auto.
  - intros H. apply andb_prop in H as [Hx Hab].
    apply N.eqb_eq in Hx. apply IH in Hab. congruence.
  - intros H. injection H as -> ->. rewrite N.eqb_refl. now apply IH.
Qed.

Lemma decimal_ou_zero_spec v :
  (v = lit "-" -> decimal_ou_zero v = lit "0.00")
  /\ (v <> lit "-" -> decimal_ou_zero v = normalizado v).
Proof.
  unfold decimal_ou_zero. destruct (Py.eqb v (lit "-")) eqn:He; simpl.
  - apply eqb_eq in He. split; [reflexivity|congruence].
  - split; [|intros _; apply decimal_normalizado].
    intros Hv. apply eqb_eq in Hv. congruence.
Qed.

(** The matches that [finditer] lists are matches. *)
Lemma finditer_matches db texto ms m :
  finditer db texto pattern_linha = Ok ms -> In m ms ->
  match_of db texto pattern_linha m.
Proof.
  intros Hms Hin.
  destruct (@finditer_sound db texto _ productive_linha) as (ms' & Hms' & Hall).
  rewrite Hms in Hms'. injection Hms' as <-.
  rewrite Forall_forall in Hall. now apply Hall.
Qed.

(** C2.  For every match that is accepted, the principal and the total
    of the row are the matched amounts with all periods removed and the
    comma replaced by a decimal point; so are interest and penalty when
    they are amounts, and each is exactly "0.00" when it is the literal
    "-"; the principal and the total are never "-". *)
Theorem C2_amounts_normalised (db : ucd) (texto : str) (ms : list mobj)
    (m : mobj) (data_arrec banco : str) (r : registro) :
  finditer db texto pattern_linha = Ok ms ->
  In m ms ->
  linha db data_arrec banco texto m = Ok (Some r) ->
  exists g_principal g_juros g_multa g_total,
    group texto m principal = Some g_principal
    /\ group texto m juros = Some g_juros
    /\ group texto m multa = Some g_multa
    /\ group texto m total = Some g_total
    /\ Valor_Principal r = normalizado g_principal
    /\ Total r = normalizado g_total
    /\ (g_juros = lit "-" -> Juros r = lit "0.00")
    /\ (g_juros <> lit "-" -> Juros r = normalizado g_juros)
    /\ (g_multa = lit "-" -> Multa r = lit "0.00")
    /\ (g_multa <> lit "-" -> Multa r = normalizado g_multa)
    /\ g_principal <> lit "-"
    /\ g_total <> lit "-".
Proof.
  intros Hms Hin Hr.
  assert (Hm : match_of db texto pattern_linha m)
    by (eapply finditer_matches; eauto).
  destruct (linha_ok data_arrec banco Hm)
    as (gc & gd & gp & gj & gm & gt & _ & _ & Hp & Hj & Hmu & Ht & _ & Lp & Lt & Hl).
  rewrite Hl in Hr. destruct (excecao db (strip gd)); [discriminate|].
  injection Hr as <-. simpl.
  exists gp, gj, gm, gt. repeat (split; [assumption|]).
  split; [apply decimal_normalizado|]. split; [apply decimal_normalizado|].
  split; [apply decimal_ou_zero_spec|]. split; [apply decimal_ou_zero_spec|].
  split; [apply decimal_ou_zero_spec|]. split; [apply decimal_ou_zero_spec|].
  split; intros ->; simpl in *; lia.
Qed.

Lemma C2_amounts_normalised_witness :
  exists g_principal g_juros g_multa g_total,
    group linha_darf match_darf principal = Some g_principal
    /\ group linha_darf match_darf juros = Some g_juros
    /\ group linha_darf match_darf multa = Some g_multa
    /\ group linha_darf match_darf total = Some g_total
    /\ Valor_Principal registro_darf = normalizado g_principal
    /\ Total registro_darf = normalizado g_total
    /\ (g_juros = lit "-" -> Juros registro_darf = lit "0.00")
    /\ (g_juros <> lit "-" -> Juros registro_darf = normalizado g_juros)
    /\ (g_multa = lit "-" -> Multa registro_darf = lit "0.00")
    /\ (g_multa <> lit "-" -> Multa registro_darf = normalizado g_multa)
    /\ g_principal <> lit "-"
    /\ g_total <> lit "-".
Proof.
  apply (@C2_amounts_normalised latin1_ucd linha_darf [match_darf] match_darf
           (lit "") (lit "") registro_darf).
  - vm_compute. reflexivity.
  - simpl. auto.
  - vm_compute. reflexivity.
Defined.

Section Paginas.

Variable db : ucd.

(** A row comes from a match whose description passed the filter. *)
Lemma linha_some data_arrec banco texto m r :
  linha db data_arrec banco texto m = Ok (Some r) ->
  excecao db (Descricao r) = false
  /\ Data_de_Arrecadacao r = data_arrec /\ Banco r = banco.
Proof.
  unfold linha, group_str. intros H.
  destruct (group texto m descricao) as [gd|]; [simpl in H|discriminate].
  destruct (excecao db (strip gd)) eqn:He; [discriminate|].
  destruct (group texto m codigo); [simpl in H|discriminate].
  destruct (group texto m principal); [simpl in H|discriminate].
  destruct (group texto m juros); [simpl in H|discriminate].
  destruct (group texto m multa); [simpl in H|discriminate].
  destruct (group texto m total); [simpl in H|discriminate].
  injection H as <-. simpl. auto.
Qed.

Lemma aceitos_in data_arrec banco texto ms r :
  In r (aceitos db data_arrec banco texto ms) ->
  exists m, In m ms /\ linha db data_arrec banco texto m = Ok (Some r).
Proof.
  unfold aceitos. intros H. apply in_flat_map in H as (m & Hm & Hr).
  exists m. split; [assumption|].
  destruct (linha db data_arrec banco texto m) as [[r'|]|e]; simpl in Hr;
    try contradiction.
  destruct Hr as [->|[]]. reflexivity.
Qed.

Lemma pagina_linhas texto :
  exists rows, linhas_de db texto rows
               /\ forall registros,
                    pagina db registros texto = Ok (registros ++ rows).
Proof.
  destruct (pagina_ok db texto) as (data_arrec & banco & ms & H1 & H2 & _ & H3).
  exists (aceitos db data_arrec banco texto ms). split; [|assumption].
  exists data_arrec, banco, ms. auto.
Qed.

(** The outer loop appends, page after page, the rows of each page. *)
Lemma for_each_pagina doc :
  exists per_page,
    Forall2 (fun texto rows =>
               linhas_de db texto rows
               /\ forall registros,
                    pagina db registros texto = Ok (registros ++ rows))
            doc per_page
    /\ forall registros,
         for_each doc (pagina db) registros
         = Ok (registros ++ concat per_page).
Proof.
  induction doc as [|texto doc IH]; simpl.
  - exists []. split; [constructor|]. intros registros. simpl.
    now rewrite app_nil_r.
  - destruct (pagina_linhas texto) as (rows & Hrows & Hpag).
    destruct IH as (per_page & Hall & Hloop).
    exists (rows :: per_page). split; [constructor; auto|].
    intros registros. rewrite Hpag. simpl. rewrite Hloop.
    now rewrite app_assoc.
Qed.

Lemma for_each_app (A S : Type) (body : S -> A -> exc S) xs ys : forall st,
  for_each (xs ++ ys) body st
  = bind (for_each xs body st) (for_each ys body).
Proof.
  induction xs as [|x xs IH]; intros st; simpl; [reflexivity|].
  destruct (body st x); simpl; auto.
Qed.

(** A match whose description has an exclusion term is skipped. *)
Lemma linha_excecao data_arrec banco texto m g_descricao :
  group texto m descricao = Some g_descricao ->
  excecao db (strip g_descricao) = true ->
  linha db data_arrec banco texto m = Ok None.
Proof.
  intros Hg He. unfold linha, group_str. rewrite Hg. simpl. now rewrite He.
Qed.

Lemma Forall2_in_right (A B : Type) (R : A -> B -> Prop) l l' y :
  Forall2 R l l' -> In y l' -> exists x, In x l /\ R x y.
Proof.
  induction 1 as [|x y' l l' Hxy _ IH]; simpl; [contradiction|].
  intros [->|Hy]; [eauto|].
  destruct (IH Hy) as (x' & Hx' & HR). eauto.
Qed.

(** Every row of the result is a row of one of the pages. *)
Lemma extrair_dados_in doc rows r :
  extrair_dados db doc = Ok rows -> In r rows ->
  exists texto data_arrec banco ms m,
    In texto doc
    /\ data_banco_da_pagina db texto = Ok (data_arrec, banco)
    /\ finditer db texto pattern_linha = Ok ms /\ In m ms
    /\ linha db data_arrec banco texto m = Ok (Some r).
Proof.
  unfold extrair_dados. intros H Hr.
  destruct (for_each_pagina doc) as (per_page & Hall & Hloop).
  rewrite Hloop in H. injection H as <-. simpl in Hr.
  apply in_concat in Hr as (rows_p & Hp & Hr).
  eapply Forall2_in_right in Hall; [|exact Hp].
  destruct Hall
    as (texto & Ht & (data_arrec & banco & ms & Hd & Hms & ->) & _).
  apply aceitos_in in Hr as (m & Hm & Hl).
  exists texto, data_arrec, banco, ms, m. auto.
Qed.

End Paginas.

(** C3.  No row of the result has a description in which, case ignored,
    one of "Agência", "Estabelecimento", "Valor Reservado", "Restituído",
    "Referência" occurs; and a match whose description has one of them is
    skipped: the loop body adds no row for it, whatever its other
    fields. *)
Theorem C3_exclusion_terms (db : ucd) :
  (forall doc rows r term,
     extrair_dados db doc = Ok rows -> In r rows ->
     In term [lit "Agência"; lit "Estabelecimento"; lit "Valor Reservado";
              lit "Restituído"; lit "Referência"] ->
     contem_sem_caixa db term (Descricao r) = false)
  /\ (forall texto m data_arrec banco g_descricao term registros,
        group texto m descricao = Some g_descricao ->
        In term [lit "Agência"; lit "Estabelecimento"; lit "Valor Reservado";
                 lit "Restituído"; lit "Referência"] ->
        contem_sem_caixa db term (strip g_descricao) = true ->
        linha db data_arrec banco texto m = Ok None
        /\ append_linha db data_arrec banco texto registros m = Ok registros).
Proof.
  split.
  - intros doc rows r term Hrows Hr Hterm.
    eapply extrair_dados_in in Hrows; [|exact Hr].
    destruct Hrows
      as (texto & data_arrec & banco & ms & m & _ & _ & _ & _ & Hl).
    apply linha_some in Hl as [He _].
    unfold excecao in He.
    destruct (contem_sem_caixa db term (Descricao r)) eqn:Hc; [|reflexivity].
    rewrite <- He. symmetry. apply existsb_exists. exists term. auto.
  - intros texto m data_arrec banco gd term registros Hg Hterm Hc.
    assert (Hl : linha db data_arrec banco texto m = Ok None).
    { eapply linha_excecao; [exact Hg|].
      apply existsb_exists. exists term. auto. }
    split; [assumption|]. unfold append_linha. now rewrite Hl.
Qed.

Lemma C3_exclusion_terms_witness :
  contem_sem_caixa latin1_ucd (lit "agência")
    (strip (lit "Agência Centro")) = true
  /\ linha latin1_ucd (lit "") (lit "") linha_agencia match_agencia = Ok None
  /\ extrair_dados latin1_ucd [linha_agencia] = Ok [].
Proof.
  split; [vm_compute; reflexivity|]. split.
  - apply (proj2 (C3_exclusion_terms latin1_ucd) linha_agencia match_agencia
             (lit "") (lit "") (lit "Agência Centro") (lit "Agência") []).
    + vm_compute. reflexivity.
    + simpl. auto.
    + vm_compute. reflexivity.
  - vm_compute. reflexivity.
Defined.



Section Localizador.

Variable db : ucd.




End Localizador.




(** The three cases on pages of ten lines: date and bank in the last
    line, in the first line, and nowhere. *)
Example data_banco_no_rodape :
  data_banco_da_pagina latin1_ucd
    (join [LF] (repeat (lit "x") 9 ++ [rodape_itau]))
  = Ok (lit "31/01/2024", lit "341 - BANCO ITAU S A").
Proof. vm_compute. reflexivity. Qed.

Example data_banco_fora_do_rodape :
  search latin1_ucd
    (regiao_rodape (join [LF] (rodape_itau :: repeat (lit "x") 9)))
    pattern_data_banco = Ok None
  /\ data_banco_da_pagina latin1_ucd
       (join [LF] (rodape_itau :: repeat (lit "x") 9))
     = Ok (lit "31/01/2024", lit "341 - BANCO ITAU S A").
Proof. split; vm_compute; reflexivity. Qed.

Example data_banco_ausente :
  data_banco_da_pagina latin1_ucd (join [LF] (repeat (lit "x") 10))
  = Ok (lit "", lit "").
Proof. vm_compute. reflexivity. Qed.

Section Prefix.

Variable p s : str.

Lemma slice_prefix a b : slice (length p + a) (length p + b) (p ++ s) = slice a b s.
Proof.
  unfold slice. rewrite skipn_app.
  rewrite skipn_all2 by lia. simpl.
  replace (length p + a - length p) with a by lia.
  now replace (length p + b - (length p + a)) with (b - a) by lia.
Qed.

Lemma group_prefix m g : group (p ++ s) (shift_obj (length p) m) g = group s m g.
Proof.
  unfold group, shift_obj. simpl.
  induction (m_caps m) as [|[g' [a b]] cs IH]; simpl; [reflexivity|].
  destruct (Nat.eqb g' g); [|assumption]. now rewrite slice_prefix.
Qed.

Lemma data_banco_prefix m :
  data_banco (p ++ s) (shift_obj (length p) m) = data_banco s m.
Proof. unfold data_banco, group_str. now rewrite !group_prefix. Qed.

End Prefix.

(** C5, as stated, fails: the search stops at the first date and bank of
    the footer, which need not be the ones it ends in. *)
Lemma C5_counterexample :
  ~ (forall (db : ucd) (texto prefixo : str),
       latin1_compatible db ->
       rodape_de texto = prefixo ++ lit "31/01/2024 341 - BANCO ITAU S A" ->
       data_banco_da_pagina db texto
       = Ok (lit "31/01/2024", lit "341 - BANCO ITAU S A")).
Proof.
  intros H.
  assert (Hr : rodape_de dois_bancos
               = lit "01/01/2020 001 - A " ++ lit "31/01/2024 341 - BANCO ITAU S A")
    by (vm_compute; reflexivity).
  assert (Hval : data_banco_da_pagina latin1_ucd dois_bancos
                 = Ok (lit "01/01/2020", lit "001 - A 31"))
    by (vm_compute; reflexivity).
  assert (Hne : Ok (lit "01/01/2020", lit "001 - A 31")
                <> Ok (lit "31/01/2024", lit "341 - BANCO ITAU S A"))
    by (vm_compute; discriminate).
  apply Hne. rewrite <- Hval.
  exact (H latin1_ucd dois_bancos (lit "01/01/2020 001 - A ")
           latin1_ucd_compatible Hr).
Qed.

(** What the script answers there: the first date, and as bank the text
    up to the second date. *)
Example dois_bancos_primeiro :
  rodape_de dois_bancos = dois_bancos
  /\ data_banco_da_pagina latin1_ucd dois_bancos
     = Ok (lit "01/01/2020", lit "001 - A 31").
Proof. split; vm_compute; reflexivity. Qed.

(** C5, amended.  For a page whose footer region ends in
    "31/01/2024 341 - BANCO ITAU S A", with the date and bank pattern
    matching at no position of the footer before that ending, the date is
    "31/01/2024" and the bank "341 - BANCO ITAU S A". *)
Theorem C5_footer_date_and_bank (db : ucd) (texto prefixo : str) :
  latin1_compatible db ->
  rodape_de texto = prefixo ++ lit "31/01/2024 341 - BANCO ITAU S A" ->
  (forall i, i < length prefixo ->
     match_at db (prefixo ++ lit "31/01/2024 341 - BANCO ITAU S A")
       pattern_data_banco false i = Ok None) ->
  data_banco_da_pagina db texto
  = Ok (lit "31/01/2024", lit "341 - BANCO ITAU S A").
Proof.
  intros compat Hrodape Hnone.
  unfold data_banco_da_pagina. rewrite Hrodape.
  set (fim := lit "31/01/2024 341 - BANCO ITAU S A") in *.
  assert (Hat : match_at db (prefixo ++ fim) pattern_data_banco false
                  (0 + length prefixo)
                = Ok (Some (shift_obj (length prefixo) match_itau))).
  { rewrite Nat.add_0_l, <- (Nat.add_0_r (length prefixo)) at 1.
    rewrite (@match_at_shift latin1_ucd db prefixo fim).
    - replace (match_at latin1_ucd fim pattern_data_banco false 0)
        with (Ok (Some match_itau)) by (vm_compute; reflexivity).
      reflexivity.
    - apply latin1_digits; [assumption|].
      apply Forall_forall. intros c Hc. apply N.ltb_lt.
      revert c Hc. apply forallb_forall. vm_compute. reflexivity. }
  assert (Hs : search db (prefixo ++ fim) pattern_data_banco
               = Ok (Some (shift_obj (length prefixo) match_itau))).
  { unfold search, search_from.
    apply search_loop_first with (j := length prefixo).
    - intros i Hi. now apply Hnone.
    - exact Hat.
    - rewrite length_app. lia. }
  rewrite Hs. cbn [bind]. rewrite data_banco_prefix.
  vm_compute. reflexivity.
Qed.

Lemma C5_footer_date_and_bank_witness :
  data_banco_da_pagina latin1_ucd pagina_itau
  = Ok (lit "31/01/2024", lit "341 - BANCO ITAU S A").
Proof.
  apply (@C5_footer_date_and_bank latin1_ucd pagina_itau
           (lit "1234 IMPOSTO DE RENDA 1.234,56 - - 1.234,56 ")).
  - exact latin1_ucd_compatible.
  - vm_compute. reflexivity.
  - intros i Hi.
    do 44 (destruct i as [|i]; [vm_compute; reflexivity|]).
    exfalso.
    assert (Hlen : length (lit "1234 IMPOSTO DE RENDA 1.234,56 - - 1.234,56 ") = 44)
      by (vm_compute; reflexivity).
    rewrite Hlen in Hi. lia.
Defined.

Section Documento.

Variable db : ucd.

Lemma extrair_dados_um texto rows :
  (forall registros, pagina db registros texto = Ok (registros ++ rows)) ->
  extrair_dados db [texto] = Ok rows.
Proof.
  intros H. unfold extrair_dados. simpl. now rewrite H.
Qed.

(** The rows of a document are those of its pages, one page after the
    other. *)
Lemma extrair_dados_concat doc :
  exists per_page,
    Forall2 (fun texto rows =>
               extrair_dados db [texto] = Ok rows /\ linhas_de db texto rows)
            doc per_page
    /\ extrair_dados db doc = Ok (concat per_page).
Proof.
  destruct (for_each_pagina db doc) as (per_page & Hall & Hloop).
  exists per_page. split; [|apply Hloop].
  eapply Forall2_impl; [|exact Hall].
  intros texto rows [Hl Hp]. split; [now apply extrair_dados_um|assumption].
Qed.

Lemma extrair_dados_app antes depois :
  exists rows_antes rows_depois,
    extrair_dados db antes = Ok rows_antes
    /\ extrair_dados db depois = Ok rows_depois
    /\ extrair_dados db (antes ++ depois) = Ok (rows_antes ++ rows_depois).
Proof.
  destruct (for_each_pagina db antes) as (pa & _ & Ha).
  destruct (for_each_pagina db depois) as (pd & _ & Hd).
  exists (concat pa), (concat pd). unfold extrair_dados.
  rewrite for_each_app, Ha, Hd. simpl. now rewrite Hd.
Qed.

Lemma linhas_de_sem_match texto rows :
  linhas_de db texto rows ->
  finditer db texto pattern_linha = Ok [] -> rows = [].
Proof.
  intros (data_arrec & banco & ms & _ & Hms & ->) H0.
  rewrite H0 in Hms. injection Hms as <-. reflexivity.
Qed.

End Documento.

(** C7.  The rows of a document are the rows that each page gives when
    taken alone, put one after the other in the order of the pages; the
    rows of a page are those of its matches, in the order of the matches;
    and a page on which the line pattern matches nothing adds no row and
    leaves the rows of the other pages as they are. *)
Theorem C7_rows_page_by_page (db : ucd) :
  (forall doc, exists per_page,
     Forall2 (fun texto rows =>
                extrair_dados db [texto] = Ok rows /\ linhas_de db texto rows)
             doc per_page
     /\ extrair_dados db doc = Ok (concat per_page))
  /\ (forall antes texto depois,
        finditer db texto pattern_linha = Ok [] ->
        extrair_dados db [texto] = Ok []
        /\ extrair_dados db (antes ++ texto :: depois)
           = extrair_dados db (antes ++ depois)).
Proof.
  split; [apply extrair_dados_concat|].
  intros antes texto depois H0.
  destruct (pagina_linhas db texto) as (rows & Hl & Hp).
  apply linhas_de_sem_match in Hl; [subst rows|assumption].
  split; [now apply extrair_dados_um|].
  unfold extrair_dados. rewrite !for_each_app.
  destruct (for_each antes (pagina db) []) as [registros|e]; simpl;
    [|reflexivity].
  now rewrite Hp, app_nil_r.
Qed.

Lemma C7_rows_page_by_page_witness :
  extrair_dados latin1_ucd [pagina_vazia] = Ok []
  /\ extrair_dados latin1_ucd ([linha_darf] ++ pagina_vazia :: [codigo_longo])
     = extrair_dados latin1_ucd ([linha_darf] ++ [codigo_longo]).
Proof.
  apply (proj2 (C7_rows_page_by_page latin1_ucd) [linha_darf] pagina_vazia
           [codigo_longo]).
  vm_compute. reflexivity.
Defined.

(** C6.  The date and bank are found anew on each page: on a page where
    the pattern is found neither in the footer region nor in the text
    without line breaks, every row of the page has the empty string as
    date and as bank, whatever the pages before it had. *)
Theorem C6_no_metadata_inherited (db : ucd) (antes : list str) (texto : str)
    (depois : list str) :
  search db (rodape_de texto) pattern_data_banco = Ok None ->
  search db (texto_flat_de texto) pattern_data_banco = Ok None ->
  exists rows_antes rows rows_depois,
    extrair_dados db antes = Ok rows_antes
    /\ extrair_dados db [texto] = Ok rows
    /\ extrair_dados db depois = Ok rows_depois
    /\ extrair_dados db (antes ++ texto :: depois)
       = Ok (rows_antes ++ rows ++ rows_depois)
    /\ Forall sem_data_banco rows.
Proof.
  intros Hr Hf.
  destruct (extrair_dados_app db antes (texto :: depois))
    as (rows_antes & rows_resto & Ha & Hresto & Hall).
  destruct (extrair_dados_app db [texto] depois)
    as (rows & rows_depois & Ht & Hd & Htd).
  simpl in Htd. rewrite Htd in Hresto. injection Hresto as <-.
  exists rows_antes, rows, rows_depois. repeat (split; [assumption|]).
  destruct (pagina_linhas db texto) as (rows' & Hl & Hp).
  apply extrair_dados_um in Hp. rewrite Hp in Ht. injection Ht as ->.
  destruct Hl as (data_arrec & banco & ms & Hdb & _ & ->).
  unfold data_banco_da_pagina in Hdb. rewrite Hr in Hdb. simpl in Hdb.
  rewrite Hf in Hdb. simpl in Hdb. injection Hdb as <- <-.
  apply Forall_forall. intros r Hin.
  apply aceitos_in in Hin as (m & _ & Hm).
  apply linha_some in Hm as (_ & Hdata & Hbanco). now split.
Qed.

Lemma C6_no_metadata_inherited_witness :
  exists rows,
    extrair_dados latin1_ucd ([pagina_itau] ++ linha_darf :: [])
    = Ok (rows ++ [registro_darf] ++ [])
    /\ Forall sem_data_banco [registro_darf].
Proof.
  destruct (@C6_no_metadata_inherited latin1_ucd [pagina_itau] linha_darf [])
    as (rows_antes & rows & rows_depois & Ha & Ht & Hd & Hall & Hsem).
  - vm_compute. reflexivity.
  - vm_compute. reflexivity.
  - assert (Ht' : extrair_dados latin1_ucd [linha_darf] = Ok [registro_darf])
      by (vm_compute; reflexivity).
    assert (Hd' : extrair_dados latin1_ucd [] = Ok []) by reflexivity.
    rewrite Ht' in Ht. injection Ht as <-.
    rewrite Hd' in Hd. injection Hd as <-.
    exists rows_antes. split; assumption.
Defined.

(** C8.  When no match of the line pattern is accepted on any page,
    extraction raises nothing and returns the empty result, and the
    caller, finding it empty, gives the warning that no data was
    extracted instead of the success message. *)
Theorem C8_empty_result_is_a_warning (db : ucd)
    (to_excel : list registro -> BytesIO -> exc BytesIO) (doc : list str) :
  (forall texto ms m data_arrec banco,
     In texto doc -> finditer db texto pattern_linha = Ok ms -> In m ms ->
     linha db data_arrec banco texto m = Ok None) ->
  extrair_dados db doc = Ok []
  /\ app db to_excel (Some doc)
     = {| calls := [st_warning (lit "Nenhum dado extraído. Verifique se o layout do PDF corresponde aos padrões esperados.")];
          raised := None |}.
Proof.
  intros Hnone.
  assert (H : extrair_dados db doc = Ok []).
  { destruct (extrair_dados_concat db doc) as (per_page & Hall & ->).
    f_equal. apply concat_nil_Forall. apply Forall_forall. intros rows Hin.
    eapply Forall2_in_right in Hall; [|exact Hin].
    destruct Hall as (texto & Ht & _ & (data_arrec & banco & ms & _ & Hms & ->)).
    destruct (aceitos db data_arrec banco texto ms) as [|r rows] eqn:Hrows;
      [reflexivity|].
    assert (Hr : In r (aceitos db data_arrec banco texto ms))
      by (rewrite Hrows; now left).
    apply aceitos_in in Hr as (m & Hm & Hl).
    rewrite (Hnone texto ms m data_arrec banco Ht Hms Hm) in Hl. discriminate. }
  split; [assumption|]. unfold app. rewrite H. reflexivity.
Qed.

Lemma C8_empty_result_is_a_warning_witness :
  extrair_dados latin1_ucd [pagina_vazia; linha_agencia] = Ok []
  /\ app latin1_ucd (fun _ _ => Err (Raised "IllegalCharacterError"))
       (Some [pagina_vazia; linha_agencia])
     = {| calls := [st_warning (lit "Nenhum dado extraído. Verifique se o layout do PDF corresponde aos padrões esperados.")];
          raised := None |}.
Proof.
  apply C8_empty_result_is_a_warning.
  intros texto ms m data_arrec banco [<-|[<-|[]]] Hms Hm.
  - assert (H0 : finditer latin1_ucd pagina_vazia pattern_linha = Ok [])
      by (vm_compute; reflexivity).
    rewrite H0 in Hms. injection Hms as <-. destruct Hm.
  - assert (H1 : finditer latin1_ucd linha_agencia pattern_linha
                 = Ok [match_agencia])
      by (vm_compute; reflexivity).
    rewrite H1 in Hms. injection Hms as <-. destruct Hm as [<-|[]].
    apply linha_excecao with (g_descricao := lit "Agência Centro");
      vm_compute; reflexivity.
Defined.

(** The other branch of the caller: a result with a row is shown with
    the success message, and offered for download when the workbook
    could be written. *)
Lemma app_success (db : ucd) to_excel (doc : list str) r rows buffer :
  extrair_dados db doc = Ok (r :: rows) ->
  to_excel (r :: rows) BytesIO_new = Ok buffer ->
  app db to_excel (Some doc)
  = {| calls := [st_success (lit "Extração concluída com sucesso!");
                 st_dataframe (r :: rows);
                 st_download_button (lit "📥 Baixar Excel") (seek buffer 0)
                   (lit "comprovantes_ecac_extraidos.xlsx")
                   (lit "application/vnd.openxmlformats-officedocument.spreadsheetml.sheet")];
       raised := None |}.
Proof.
  intros H Hx. unfold app. rewrite H. simpl. rewrite Hx. reflexivity.
Qed.


(* ================================================================== *)
(** * Further properties of the extraction *)
(* ================================================================== *)

Import Lang Forma.

Section SliceFacts.

Variable s : str.

Lemma slice_nil a : slice a a s = [].
Proof. unfold slice. now rewrite Nat.sub_diag. Qed.

Lemma slice_app a b c :
  a <= b -> b <= c -> slice a c s = slice a b s ++ slice b c s.
Proof.
  intros Hab Hbc. unfold slice.
  replace (c - a) with ((b - a) + (c - b)) by lia.
  replace (skipn b s) with (skipn (b - a) (skipn a s))
    by (rewrite skipn_skipn; f_equal; lia).
  generalize (skipn a s) as l. generalize (b - a) as n. generalize (c - b) as m.
  intros m n. induction n as [|n IH]; intros l; simpl; [reflexivity|].
  destruct l as [|x l]; simpl.
  - now rewrite firstn_nil.
  - now rewrite IH.
Qed.

Lemma slice_one a c : nth_error s a = Some c -> slice a (S a) s = [c].
Proof.
  intros H. unfold slice. replace (S a - a) with 1 by lia.
  revert a H. induction s as [|x l IH]; intros [|a] H; simpl in *;
    try discriminate.
  - now injection H as ->.
  - now apply IH.
Qed.

End SliceFacts.

Section SemLang.

Variable db : ucd.
Variable s : str.

Lemma iter_sem_pos r n : forall st st1,
  iter n (sem db s r) st st1 -> pos st <= pos st1.
Proof.
  induction n as [|n IHn]; simpl; intros st st1 Hn.
  - now subst.
  - destruct Hn as (c & Hc & Hn). apply sem_pos in Hc. apply IHn in Hn. lia.
Qed.

(** What a match takes from the subject is a word of the pattern. *)
Lemma sem_lang r : forall st st1,
  sem db s r st st1 -> lang db r (slice (pos st) (pos st1) s).
Proof.
  induction r as [i|items|r1 IH1 r2 IH2|r1 IH1 r2 IH2|lo hi g r IH|g r IH];
    cbn [sem lang]; intros st st1 H.
  - destruct H as (c & Hc & Hok & ->). exists c. simpl.
    split; [now apply slice_one|assumption].
  - destruct H as (c & Hc & Hok & ->). exists c. simpl.
    split; [now apply slice_one|assumption].
  - destruct H as (mid & H1 & H2).
    assert (P1 := H1). apply sem_pos in P1.
    assert (P2 := H2). apply sem_pos in P2.
    exists (slice (pos st) (pos mid) s), (slice (pos mid) (pos st1) s).
    split; [apply slice_app; lia|]. split; auto.
  - destruct H as [H|H]; auto.
  - destruct H as (n & Hlo & Hhi & Hn). exists n. repeat split; auto.
    clear Hlo Hhi. revert st Hn.
    induction n as [|n IHn]; simpl; intros st Hn.
    + subst. apply slice_nil.
    + destruct Hn as (c & Hc & Hn).
      assert (P1 := Hc). apply sem_pos in P1.
      assert (P2 := Hn). apply iter_sem_pos in P2.
      exists (slice (pos st) (pos c) s), (slice (pos c) (pos st1) s).
      split; [apply slice_app; lia|]. split; auto.
  - destruct H as (mid & H & ->). simpl. auto.
Qed.

End SemLang.

Section GroupWords.

Variable db : ucd.
Variable s : str.

Lemma sem_group_word g r rest st st1 :
  groupless r = true ->
  sem db s (Seq (Group g r) rest) st st1 ->
  exists mid, sem db s rest mid st1
              /\ caps mid = (g, (pos st, pos mid)) :: caps st
              /\ lang db r (slice (pos st) (pos mid) s)
              /\ pos st <= pos mid.
Proof.
  intros Hg (mid & (mid0 & H0 & ->) & Hrest).
  exists (close g (pos st) mid0). simpl.
  assert (Hc := H0). apply sem_groupless in Hc; [|exact Hg]. rewrite Hc.
  assert (Hp := H0). apply sem_pos in Hp.
  apply sem_lang in H0. repeat split; auto. lia.
Qed.

Lemma sem_plain_word r rest st st1 :
  groupless r = true ->
  sem db s (Seq r rest) st st1 ->
  exists mid, sem db s rest mid st1
              /\ caps mid = caps st
              /\ lang db r (slice (pos st) (pos mid) s)
              /\ pos st <= pos mid.
Proof.
  intros Hg (mid & H0 & Hrest). exists mid.
  assert (Hc := H0). apply sem_groupless in Hc; [|exact Hg]. rewrite Hc.
  assert (Hp := H0). apply sem_pos in Hp.
  apply sem_lang in H0. repeat split; auto. lia.
Qed.

Lemma sem_group_word_last g r st st1 :
  groupless r = true ->
  sem db s (Group g r) st st1 ->
  caps st1 = (g, (pos st, pos st1)) :: caps st
  /\ lang db r (slice (pos st) (pos st1) s)
  /\ pos st <= pos st1.
Proof.
  intros Hg (mid0 & H0 & ->). simpl.
  assert (Hc := H0). apply sem_groupless in Hc; [|exact Hg]. rewrite Hc.
  assert (Hp := H0). apply sem_pos in Hp.
  apply sem_lang in H0. repeat split; auto. lia.
Qed.

(** The six groups of a match of [pattern_linha] are words of the six
    parts of the pattern. *)
Lemma linha_words m :
  match_of db s pattern_linha m ->
  exists gc gd gp gj gm gt,
    group s m codigo = Some gc /\ group s m descricao = Some gd
    /\ group s m principal = Some gp /\ group s m juros = Some gj
    /\ group s m multa = Some gm /\ group s m total = Some gt
    /\ lang db (times 4 d) gc
    /\ lang db (lazy_plus (One Dot)) gd
    /\ lang db valor gp
    /\ lang db (Alt valor (One (Char "-"))) gj
    /\ lang db (Alt valor (One (Char "-"))) gm
    /\ lang db valor gt.
Proof.
  intros (st1 & Hsem & _ & Hcaps). unfold pattern_linha in Hsem.
  apply sem_group_word in Hsem as (s1 & Hsem & C1 & W1 & _); [|reflexivity].
  apply sem_plain_word in Hsem as (s2 & Hsem & C2 & _ & _); [|reflexivity].
  apply sem_group_word in Hsem as (s3 & Hsem & C3 & W3 & _); [|reflexivity].
  apply sem_plain_word in Hsem as (s4 & Hsem & C4 & _ & _); [|reflexivity].
  apply sem_group_word in Hsem as (s5 & Hsem & C5 & W5 & _); [|reflexivity].
  apply sem_plain_word in Hsem as (s6 & Hsem & C6 & _ & _); [|reflexivity].
  apply sem_group_word in Hsem as (s7 & Hsem & C7 & W7 & _); [|reflexivity].
  apply sem_plain_word in Hsem as (s8 & Hsem & C8 & _ & _); [|reflexivity].
  apply sem_group_word in Hsem as (s9 & Hsem & C9 & W9 & _); [|reflexivity].
  apply sem_plain_word in Hsem as (s10 & Hsem & C10 & _ & _); [|reflexivity].
  apply sem_group_word_last in Hsem as (C11 & W11 & _); [|reflexivity].
  unfold group. rewrite Hcaps, C11, C10, C9, C8, C7, C6, C5, C4, C3, C2, C1.
  simpl. do 6 eexists. repeat (split; [reflexivity|]).
  repeat split; assumption.
Qed.

(** The two groups of a match of [pattern_data_banco] are words of its
    two parts. *)
Lemma data_banco_words m :
  match_of db s pattern_data_banco m ->
  exists g1 g2,
    group s m 1 = Some g1 /\ group s m 2 = Some g2
    /\ lang db (times 2 d >> One (Char "/") >> times 2 d >> One (Char "/")
                >> times 4 d)%re g1
    /\ lang db (times 3 d >> star sp >> One (Char "-") >> star sp
                >> plus (Set_ [Range "A" "Z"; Range "À" "Ú"; Range "0" "9";
                               Char "."; Space]))%re g2.
Proof.
  intros (st1 & Hsem & _ & Hcaps). unfold pattern_data_banco in Hsem.
  apply sem_group_word in Hsem as (s1 & Hsem & C1 & W1 & _); [|reflexivity].
  apply sem_plain_word in Hsem as (s2 & Hsem & C2 & _ & _); [|reflexivity].
  apply sem_group_word_last in Hsem as (C3 & W3 & _); [|reflexivity].
  unfold group. rewrite Hcaps, C3, C2, C1. simpl.
  do 2 eexists. repeat (split; [reflexivity|]). split; assumption.
Qed.

End GroupWords.

Section WordShapes.

Variable db : ucd.

(** A repeat of one character class: the length is within the bounds
    and every character is of the class. *)
Lemma rounds_one i n w :
  rounds n (lang db (One i)) w ->
  length w = n /\ Forall (fun c => accepts db i c = true) w.
Proof.
  revert w. induction n as [|n IH]; simpl; intros w H.
  - subst. split; [reflexivity|constructor].
  - destruct H as (w1 & w2 & -> & (c & -> & Hc) & H2).
    apply IH in H2 as [Hl Hall]. simpl. split; [now rewrite Hl|].
    constructor; assumption.
Qed.

Lemma lang_times_one i n w :
  lang db (times n (One i)) w ->
  length w = n /\ Forall (fun c => accepts db i c = true) w.
Proof.
  unfold times. cbn [lang]. intros (k & Hlo & Hhi & Hk). simpl in Hhi.
  assert (k = n) by lia. subst k. now apply rounds_one.
Qed.

End WordShapes.

Section Replace.

Lemma replace_app old new a b :
  replace old new (a ++ b) = replace old new a ++ replace old new b.
Proof.
  induction a as [|c a IH]; simpl; [reflexivity|].
  now rewrite IH, app_assoc.
Qed.

Lemma replace_same old new w :
  Forall (fun c => c <> old) w -> replace old new w = w.
Proof.
  induction 1 as [|c w Hc _ IH]; simpl; [reflexivity|].
  apply N.eqb_neq in Hc. rewrite Hc, IH. reflexivity.
Qed.

End Replace.

Section Valores.

Variable db : ucd.
Hypothesis compat : latin1_compatible db.

Lemma digito_nao_e (c x : cp) :
  latin1 x -> latin1_isdecimal x = false -> digito db c -> c <> x.
Proof.
  intros Hx Hnd Hc ->. unfold digito in Hc.
  rewrite (proj1 compat x Hx) in Hc. congruence.
Qed.

Lemma digitos_sem (x : cp) w :
  latin1 x -> latin1_isdecimal x = false ->
  Forall (digito db) w -> Forall (fun c => c <> x) w.
Proof.
  intros Hx Hnd H. eapply Forall_impl; [|exact H].
  intros c Hc. now apply digito_nao_e.
Qed.

Lemma digito_zero : digito db (ord "0").
Proof. unfold digito. now rewrite (proj1 compat). Qed.

(** The thousands groups lose their periods and keep their digits. *)
Lemma rounds_milhar n w :
  rounds n (lang db (One (Char ".") >> times 3 d)%re) w ->
  Forall (digito db) (replace (ord ".") [] w).
Proof.
  revert w. induction n as [|n IH]; cbn [rounds lang]; intros w H.
  - subst. constructor.
  - destruct H as (w1 & w2 & -> & (p & ds & -> & (c & -> & Hc) & Hds) & H2).
    apply lang_times_one in Hds as [_ Hds]. simpl in Hc.
    rewrite !replace_app. simpl replace at 1. rewrite Hc. simpl.
    rewrite replace_same by (now apply digitos_sem).
    apply Forall_app. split; [exact Hds|now apply IH].
Qed.

(** A matched amount, once through the two [replace] calls of the
    script, is digits, a point and two digits. *)
Lemma valor_forma_decimal w :
  lang db valor w -> forma_decimal db (decimal w) /\ 4 <= length w.
Proof.
  unfold valor, star. cbn [lang].
  intros (w1 & t1 & -> & (n & Hlo & Hhi & H1) & w2 & t2 & -> & (k & _ & _ & H2)
          & w3 & w4 & -> & (c & -> & Hc) & H4).
  apply rounds_one in H1 as [L1 D1].
  apply rounds_milhar in H2.
  apply lang_times_one in H4 as [L4 D4].
  simpl in Hc. apply N.eqb_eq in Hc. subst c.
  split; [|rewrite !length_app; simpl; lia].
  unfold decimal. change (lit "") with (@nil cp). change (lit ".") with [ord "."].
  rewrite !replace_app.
  rewrite (@replace_same (ord ".") [] w1) by (now apply digitos_sem).
  rewrite (@replace_same (ord ".") [] w4) by (now apply digitos_sem).
  rewrite (@replace_same (ord ",") [ord "."] w1) by (now apply digitos_sem).
  rewrite (@replace_same (ord ",") [ord "."] w4) by (now apply digitos_sem).
  rewrite (@replace_same (ord ",") [ord "."] (replace (ord ".") [] w2))
    by (now apply digitos_sem).
  change (replace (ord ",") [ord "."] (replace (ord ".") [] [ord ","]))
    with [ord "."].
  exists (w1 ++ replace (ord ".") [] w2), w4.
  split; [now rewrite <- !app_assoc|].
  split; [destruct w1; [simpl in L1; lia|discriminate]|].
  split; [assumption|]. split; [|assumption].
  apply Forall_app. split; assumption.
Qed.

Lemma valor_ou_traco_forma_decimal w :
  lang db (Alt valor (One (Char "-"))) w ->
  forma_decimal db (decimal_ou_zero w).
Proof.
  cbn [lang]. intros [H|(c & -> & Hc)].
  - apply valor_forma_decimal in H as [H Hlen].
    unfold decimal_ou_zero.
    destruct (Py.eqb w (lit "-")) eqn:He; [|exact H].
    apply eqb_eq in He. subst w. simpl in Hlen. lia.
  - simpl in Hc. apply N.eqb_eq in Hc. subst c.
    exists [ord "0"], [ord "0"; ord "0"].
    split; [reflexivity|]. split; [discriminate|]. split; [reflexivity|].
    split; repeat constructor; apply digito_zero.
Qed.

End Valores.

Section Linhas.

Variable db : ucd.

(** The row that a match gives, from the six words of the match. *)
Lemma linha_row data_arrec banco texto m r :
  match_of db texto pattern_linha m ->
  linha db data_arrec banco texto m = Ok (Some r) ->
  exists gc gd gp gj gm gt,
    lang db (times 4 d) gc
    /\ lang db (lazy_plus (One Dot)) gd
    /\ lang db valor gp
    /\ lang db (Alt valor (One (Char "-"))) gj
    /\ lang db (Alt valor (One (Char "-"))) gm
    /\ lang db valor gt
    /\ r = {| Codigo_do_DARF := gc;
              Descricao := strip gd;
              Data_de_Arrecadacao := data_arrec;
              Banco := banco;
              Valor_Principal := decimal gp;
              Juros := decimal_ou_zero gj;
              Multa := decimal_ou_zero gm;
              Total := decimal gt |}.
Proof.
  intros Hm Hr.
  apply linha_words in Hm
    as (gc & gd & gp & gj & gm & gt & Hc & Hd & Hp & Hj & Hmu & Ht & W).
  exists gc, gd, gp, gj, gm, gt.
  unfold linha, group_str in Hr. rewrite Hd in Hr. simpl in Hr.
  destruct (excecao db (strip gd)); [discriminate|].
  rewrite Hc, Hp, Hj, Hmu, Ht in Hr. simpl in Hr. injection Hr as <-.
  intuition.
Qed.

(** Every row of the result is such a row, of a match on one of the
    pages. *)
Lemma extrair_dados_row doc rows r :
  extrair_dados db doc = Ok rows -> In r rows ->
  exists texto data_arrec banco gc gd gp gj gm gt,
    In texto doc
    /\ data_banco_da_pagina db texto = Ok (data_arrec, banco)
    /\ lang db (times 4 d) gc
    /\ lang db (lazy_plus (One Dot)) gd
    /\ lang db valor gp
    /\ lang db (Alt valor (One (Char "-"))) gj
    /\ lang db (Alt valor (One (Char "-"))) gm
    /\ lang db valor gt
    /\ r = {| Codigo_do_DARF := gc;
              Descricao := strip gd;
              Data_de_Arrecadacao := data_arrec;
              Banco := banco;
              Valor_Principal := decimal gp;
              Juros := decimal_ou_zero gj;
              Multa := decimal_ou_zero gm;
              Total := decimal gt |}.
Proof.
  intros Hrows Hr.
  eapply extrair_dados_in in Hrows; [|exact Hr].
  destruct Hrows as (texto & data_arrec & banco & ms & m & Ht & Hd & Hms & Hm & Hl).
  eapply finditer_matches in Hms; [|exact Hm].
  eapply linha_row in Hl; [|exact Hms].
  destruct Hl as (gc & gd & gp & gj & gm & gt & Hl).
  exists texto, data_arrec, banco, gc, gd, gp, gj, gm, gt. tauto.
Qed.

End Linhas.

(** X1.  The code of every row is exactly four decimal digits. *)
Theorem codigo_quatro_digitos (db : ucd) (doc : list str)
    (rows : list registro) (r : registro) :
  extrair_dados db doc = Ok rows -> In r rows ->
  length (Codigo_do_DARF r) = 4 /\ Forall (digito db) (Codigo_do_DARF r).
Proof.
  intros Hrows Hr.
  eapply extrair_dados_row in Hrows; [|exact Hr].
  destruct Hrows as (texto & da & b & gc & gd & gp & gj & gm & gt & _ & _
                     & Hc & _ & _ & _ & _ & _ & ->).
  simpl. now apply lang_times_one in Hc.
Qed.

Lemma codigo_quatro_digitos_witness :
  length (Codigo_do_DARF registro_darf) = 4
  /\ Forall (digito latin1_ucd) (Codigo_do_DARF registro_darf).
Proof.
  apply (@codigo_quatro_digitos latin1_ucd [linha_darf] [registro_darf]).
  - vm_compute. reflexivity.
  - simpl. auto.
Defined.

(** X2.  The four amounts of every row are in decimal form: digits, at
    least one, a point, and two digits; no comma and no thousands
    separator is left. *)
Theorem valores_em_forma_decimal (db : ucd) (doc : list str)
    (rows : list registro) (r : registro) :
  latin1_compatible db ->
  extrair_dados db doc = Ok rows -> In r rows ->
  forma_decimal db (Valor_Principal r) /\ forma_decimal db (Juros r)
  /\ forma_decimal db (Multa r) /\ forma_decimal db (Total r).
Proof.
  intros compat Hrows Hr.
  eapply extrair_dados_row in Hrows; [|exact Hr].
  destruct Hrows as (texto & da & b & gc & gd & gp & gj & gm & gt & _ & _
                     & _ & _ & Hp & Hj & Hm & Ht & ->).
  simpl. repeat split.
  - now apply valor_forma_decimal.
  - now apply valor_ou_traco_forma_decimal.
  - now apply valor_ou_traco_forma_decimal.
  - now apply valor_forma_decimal.
Qed.

Lemma valores_em_forma_decimal_witness :
  forma_decimal latin1_ucd (lit "1234.56")
  /\ forma_decimal latin1_ucd (lit "0.00")
  /\ forma_decimal latin1_ucd (lit "0.00")
  /\ forma_decimal latin1_ucd (lit "1234.56").
Proof.
  apply (@valores_em_forma_decimal latin1_ucd [linha_darf] [registro_darf]
           registro_darf).
  - exact latin1_ucd_compatible.
  - vm_compute. reflexivity.
  - simpl. auto.
Defined.

Section Strip.

Lemma lstrip_split s :
  exists ws, s = ws ++ lstrip s /\ Forall (fun c => isspace c = true) ws.
Proof.
  induction s as [|c s (ws & Hs & Hws)]; simpl.
  - exists []. split; [reflexivity|constructor].
  - destruct (isspace c) eqn:Hc.
    + exists (c :: ws). split; [simpl; congruence|constructor; assumption].
    + exists []. split; [reflexivity|constructor].
Qed.

Lemma lstrip_head s c t : lstrip s = c :: t -> isspace c = false.
Proof.
  induction s as [|x s IH]; simpl; [discriminate|].
  destruct (isspace x) eqn:Hx; [assumption|].
  intros H. injection H as <- _. assumption.
Qed.

Lemma lstrip_fix s :
  (forall c t, s = c :: t -> isspace c = false) -> lstrip s = s.
Proof.
  destruct s as [|c t]; intros H; simpl; [reflexivity|].
  now rewrite (H c t eq_refl).
Qed.

Lemma lstrip_lstrip s : lstrip (lstrip s) = lstrip s.
Proof.
  apply lstrip_fix. intros c t H. now apply lstrip_head in H.
Qed.

(** [strip] takes white space off both ends and nothing else. *)
Lemma strip_split s :
  exists ws1 ws2,
    s = ws1 ++ strip s ++ ws2
    /\ Forall (fun c => isspace c = true) ws1
    /\ Forall (fun c => isspace c = true) ws2.
Proof.
  destruct (lstrip_split s) as (ws1 & H1 & W1).
  destruct (lstrip_split (rev (lstrip s))) as (ws2 & H2 & W2).
  exists ws1, (rev ws2). unfold strip, rstrip.
  split; [|split; [assumption|now apply Forall_rev]].
  rewrite <- rev_app_distr, <- H2, rev_involutive. exact H1.
Qed.

(** Trimming twice is trimming once. *)
Lemma strip_aparado s : aparado (strip s).
Proof.
  unfold aparado.
  assert (Hl : lstrip (strip s) = strip s).
  { apply lstrip_fix. intros c t Hc.
    destruct (lstrip_split (rev (lstrip s))) as (ws & H2 & _).
    apply (f_equal (@rev cp)) in H2.
    rewrite rev_involutive, rev_app_distr in H2.
    change (rev (lstrip (rev (lstrip s)))) with (strip s) in H2.
    rewrite Hc in H2. simpl in H2. now apply lstrip_head in H2. }
  unfold strip at 1. rewrite Hl. unfold strip, rstrip.
  now rewrite rev_involutive, lstrip_lstrip.
Qed.

Lemma strip_keeps s c : In c s -> isspace c = false -> In c (strip s).
Proof.
  intros Hin Hc. destruct (strip_split s) as (ws1 & ws2 & Hs & W1 & W2).
  rewrite Hs in Hin. rewrite !in_app_iff in Hin.
  rewrite Forall_forall in W1, W2.
  destruct Hin as [H|[H|H]]; [apply W1 in H; congruence|assumption|
                               apply W2 in H; congruence].
Qed.

End Strip.

(** X3.  The description of every row is trimmed and has no line feed
    in it. *)
Theorem descricao_aparada_sem_LF (db : ucd) (doc : list str)
    (rows : list registro) (r : registro) :
  extrair_dados db doc = Ok rows -> In r rows ->
  aparado (Descricao r) /\ sem_LF (Descricao r).
Proof.
  intros Hrows Hr.
  eapply extrair_dados_row in Hrows; [|exact Hr].
  destruct Hrows as (texto & da & b & gc & gd & gp & gj & gm & gt & _ & _
                     & _ & Hd & _ & _ & _ & _ & ->).
  simpl. split; [apply strip_aparado|].
  apply Forall_strip. unfold lazy_plus in Hd. cbn [lang] in Hd.
  destruct Hd as (n & _ & _ & Hn). apply rounds_one in Hn as [_ Hn].
  eapply Forall_impl; [|exact Hn]. simpl. intros c Hc ->. discriminate.
Qed.

Lemma descricao_aparada_sem_LF_witness :
  aparado (lit "IMPOSTO DE RENDA") /\ sem_LF (lit "IMPOSTO DE RENDA").
Proof.
  apply (@descricao_aparada_sem_LF latin1_ucd [campos_em_linhas]
           [registro_darf] registro_darf).
  - vm_compute. reflexivity.
  - simpl. auto.
Defined.

Section DataBanco.

Variable db : ucd.

Lemma rounds_set items n w :
  rounds n (lang db (Set_ items)) w ->
  length w = n
  /\ Forall (fun c => existsb (fun i => accepts db i c) items = true) w.
Proof.
  revert w. induction n as [|n IH]; simpl; intros w H.
  - subst. split; [reflexivity|constructor].
  - destruct H as (w1 & w2 & -> & (c & -> & Hc) & H2).
    apply IH in H2 as [Hl Hall]. simpl. split; [now rewrite Hl|].
    constructor; assumption.
Qed.

(** The first group of [pattern_data_banco] is a date in digits. *)
Lemma data_forma_data w :
  lang db (times 2 d >> One (Char "/") >> times 2 d >> One (Char "/")
           >> times 4 d)%re w ->
  forma_data db w.
Proof.
  cbn [lang].
  intros (dd & t1 & -> & Hdd & b1 & t2 & -> & (c1 & -> & Hc1)
          & mm & t3 & -> & Hmm & b2 & aaaa & -> & (c2 & -> & Hc2) & Ha).
  apply lang_times_one in Hdd as [Ldd Ddd].
  apply lang_times_one in Hmm as [Lmm Dmm].
  apply lang_times_one in Ha as [La Da].
  simpl in Hc1, Hc2. apply N.eqb_eq in Hc1, Hc2. subst c1 c2.
  exists dd, mm, aaaa. repeat split; auto.
Qed.

(** The second group is made of the characters of a bank string and has
    a hyphen in it. *)
Lemma banco_de_banco w :
  lang db (times 3 d >> star sp >> One (Char "-") >> star sp
           >> plus (Set_ [Range "A" "Z"; Range "À" "Ú"; Range "0" "9";
                          Char "."; Space]))%re w ->
  Forall (fun c => de_banco db c = true) w /\ In (ord "-") w.
Proof.
  unfold star, plus. cbn [lang].
  intros (w1 & t1 & -> & H1 & w2 & t2 & -> & (n2 & _ & _ & H2)
          & w3 & t3 & -> & (c & -> & Hc)
          & w4 & w5 & -> & (n4 & _ & _ & H4) & (n5 & _ & _ & H5)).
  apply lang_times_one in H1 as [_ H1].
  apply rounds_one in H2 as [_ H2]. apply rounds_one in H4 as [_ H4].
  apply rounds_set in H5 as [_ H5].
  simpl in Hc. apply N.eqb_eq in Hc. subst c.
  split.
  - repeat (apply Forall_app; split).
    + eapply Forall_impl; [|exact H1]. simpl. intros c Hc.
      unfold de_banco. now rewrite Hc.
    + eapply Forall_impl; [|exact H2]. simpl. intros c Hc.
      unfold de_banco. rewrite Hc. now rewrite orb_true_r.
    + constructor; [|constructor]. unfold de_banco.
      destruct (isdecimal db (ord "-")); reflexivity.
    + eapply Forall_impl; [|exact H4]. simpl. intros c Hc.
      unfold de_banco. rewrite Hc. now rewrite orb_true_r.
    + eapply Forall_impl; [|exact H5]. intros c Hc.
      cbn [existsb accepts] in Hc. unfold de_banco.
      destruct (in_range (ord "A") (ord "Z") c),
        (in_range (ord "À") (ord "Ú") c), (in_range (ord "0") (ord "9") c),
        (c =? ord ".")%N, (isspace c); simpl in Hc; try discriminate;
        rewrite ?orb_true_r; reflexivity.
  - rewrite !in_app_iff. right. right. left. now left.
Qed.

Lemma data_banco_forma s m data banco :
  match_of db s pattern_data_banco m ->
  data_banco s m = Ok (data, banco) ->
  forma_data db data
  /\ In (ord "-") banco /\ aparado banco
  /\ Forall (fun c => de_banco db c = true) banco.
Proof.
  intros Hm Hd.
  apply data_banco_words in Hm as (g1 & g2 & H1 & H2 & W1 & W2).
  unfold data_banco, group_str in Hd. rewrite H1, H2 in Hd. simpl in Hd.
  injection Hd as <- <-.
  apply data_forma_data in W1. apply banco_de_banco in W2 as [W2 Hh].
  split; [assumption|]. split; [now apply strip_keeps|].
  split; [apply strip_aparado|now apply Forall_strip].
Qed.

End DataBanco.

(** X4.  The date and the bank of a page are both empty, or the date is
    two digits, a slash, two digits, a slash and four digits, and the
    bank is trimmed, has a hyphen, and is made of digits, white space,
    hyphens, periods and the letters ['A'..'Z'] and ['À'..'Ú'] only. *)
Theorem data_e_banco_juntos (db : ucd) (texto data banco : str) :
  data_banco_da_pagina db texto = Ok (data, banco) ->
  (data = lit "" /\ banco = lit "")
  \/ (forma_data db data
      /\ In (ord "-") banco /\ aparado banco
      /\ Forall (fun c => de_banco db c = true) banco).
Proof.
  unfold data_banco_da_pagina. intros H.
  pose proof (@search_sound db (rodape_de texto) _ _ productive_data_banco
                eq_refl) as H1.
  destruct (search db (rodape_de texto) pattern_data_banco) as [[m|]|e];
    simpl in H; [| |contradiction].
  - right. destruct H1 as [H1 _]. eapply data_banco_forma; eauto.
  - pose proof (@search_sound db (texto_flat_de texto) _ _
                  productive_data_banco eq_refl) as H2.
    destruct (search db (texto_flat_de texto) pattern_data_banco) as [[m|]|e];
      simpl in H; [| |contradiction].
    + right. destruct H2 as [H2 _]. eapply data_banco_forma; eauto.
    + left. injection H as <- <-. auto.
Qed.

Lemma data_e_banco_juntos_witness :
  (lit "31/01/2024" = lit "" /\ lit "341 - BANCO ITAU S A" = lit "")
  \/ (forma_data latin1_ucd (lit "31/01/2024")
      /\ In (ord "-") (lit "341 - BANCO ITAU S A")
      /\ aparado (lit "341 - BANCO ITAU S A")
      /\ Forall (fun c => de_banco latin1_ucd c = true)
                (lit "341 - BANCO ITAU S A")).
Proof.
  apply (@data_e_banco_juntos latin1_ucd pagina_itau).
  vm_compute. reflexivity.
Defined.

(** X5.  All rows of a page carry the date and bank of that page. *)
Theorem linhas_da_pagina_mesma_data (db : ucd) (texto : str)
    (rows : list registro) (data banco : str) :
  extrair_dados db [texto] = Ok rows ->
  data_banco_da_pagina db texto = Ok (data, banco) ->
  Forall (fun r => Data_de_Arrecadacao r = data /\ Banco r = banco) rows.
Proof.
  intros Hrows Hd. apply Forall_forall. intros r Hr.
  eapply extrair_dados_in in Hrows; [|exact Hr].
  destruct Hrows as (texto' & da & b & ms & m & [<-|[]] & Hd' & _ & _ & Hl).
  rewrite Hd in Hd'. injection Hd' as <- <-.
  apply linha_some in Hl. tauto.
Qed.

Lemma linhas_da_pagina_mesma_data_witness :
  Forall (fun r => Data_de_Arrecadacao r = lit "31/01/2024"
                   /\ Banco r = lit "341 - BANCO ITAU S A")
    [{| Codigo_do_DARF := lit "1234";
        Descricao := lit "IMPOSTO DE RENDA";
        Data_de_Arrecadacao := lit "31/01/2024";
        Banco := lit "341 - BANCO ITAU S A";
        Valor_Principal := lit "1234.56";
        Juros := lit "0.00";
        Multa := lit "0.00";
        Total := lit "1234.56" |}].
Proof.
  apply (@linhas_da_pagina_mesma_data latin1_ucd pagina_itau).
  - vm_compute. reflexivity.
  - vm_compute. reflexivity.
Defined.

Section Ordem.

Variable db : ucd.
Variable s : str.

(** [finditer] lists its matches from left to right, each starting at
    or after the end of the one before. *)
Lemma finditer_loop_em_ordem r : productive r = true ->
  forall fuel must_advance start ms,
    finditer_loop db s fuel r must_advance start = Ok ms ->
    em_ordem start ms /\ Forall (fun m => match_of db s r m) ms.
Proof.
  intros Hp. induction fuel as [|fuel IH]; intros ma start ms H;
    [discriminate|].
  simpl in H. unfold search_from in H.
  pose proof (@search_loop_sound db s r Hp (S (length s - start)) ma start
                _ eq_refl) as Hm.
  destruct (search_loop db s r ma (S (length s - start)) start) as [[m|]|e];
    simpl in H; [| |contradiction].
  - destruct (finditer_loop db s fuel r (Nat.eqb (m_end m) (m_start m))
                (m_end m)) as [rest|e] eqn:Hrest; simpl in H; [|discriminate].
    injection H as <-. apply IH in Hrest as [Ho Hall].
    destruct Hm as (Hm & Hs & _).
    assert (He : m_start m <= m_end m).
    { destruct Hm as (st1 & Hsem & -> & _). apply sem_pos in Hsem.
      simpl in Hsem. lia. }
    split.
    + simpl. split; [lia|]. split; [lia|assumption].
    + constructor; assumption.
  - injection H as <-. simpl. auto.
Qed.

End Ordem.

Section Contagem.

Variable db : ucd.

Lemma linha_toma_20 texto m :
  match_of db texto pattern_linha m ->
  m_start m + 20 <= m_end m /\ m_end m <= length texto.
Proof.
  intros (st1 & Hsem & -> & _). apply sem_pos in Hsem.
  change (min_len pattern_linha) with 20 in Hsem. simpl in Hsem. lia.
Qed.

Lemma em_ordem_20 texto : forall ms start,
  em_ordem start ms ->
  Forall (fun m => match_of db texto pattern_linha m) ms ->
  20 * length ms <= length texto - start.
Proof.
  induction ms as [|m ms IH]; intros start Ho Hall; simpl; [lia|].
  destruct Ho as (Hs & _ & Ho). inversion Hall as [|? ? Hm Hms]; subst.
  apply linha_toma_20 in Hm. specialize (IH _ Ho Hms). lia.
Qed.

Lemma aceitos_length data_arrec banco texto ms :
  length (aceitos db data_arrec banco texto ms) <= length ms.
Proof.
  unfold aceitos. induction ms as [|m ms IH]; simpl; [lia|].
  rewrite length_app.
  destruct (linha db data_arrec banco texto m) as [[r|]|e]; simpl; lia.
Qed.

Lemma linhas_de_20 texto rows :
  linhas_de db texto rows -> 20 * length rows <= length texto.
Proof.
  intros (data_arrec & banco & ms & _ & Hms & ->).
  unfold finditer in Hms.
  apply finditer_loop_em_ordem in Hms as [Ho Hall]; [|reflexivity].
  pose proof (em_ordem_20 _ Ho Hall) as H.
  pose proof (aceitos_length data_arrec banco texto ms). lia.
Qed.

End Contagem.

(** X6.  A row takes at least twenty characters of page text, and no
    two rows share any: the number of rows, times twenty, is at most the
    total length of the page texts.  A page of fewer than twenty
    characters gives no row. *)
Theorem vinte_caracteres_por_linha (db : ucd) (doc : list str)
    (rows : list registro) :
  extrair_dados db doc = Ok rows ->
  20 * length rows <= length (concat doc).
Proof.
  intros Hrows.
  destruct (extrair_dados_concat db doc) as (per_page & Hall & H).
  rewrite H in Hrows. injection Hrows as <-. clear H.
  induction Hall as [|texto rows doc per_page [_ Hl] _ IH]; simpl; [lia|].
  rewrite !length_app. apply linhas_de_20 in Hl. lia.
Qed.

Lemma vinte_caracteres_por_linha_witness :
  20 * length [registro_darf] <= length (concat [linha_darf]).
Proof.
  apply (@vinte_caracteres_por_linha latin1_ucd [linha_darf] [registro_darf]).
  vm_compute. reflexivity.
Defined.

Section QualquerCaixa.

Lemma startswith_app a b : startswith a (a ++ b) = true.
Proof.
  induction a as [|x a IH]; simpl; [reflexivity|].
  now rewrite N.eqb_refl, IH.
Qed.

Lemma contains_startswith a b : startswith a b = true -> contains a b = true.
Proof. intros H. destruct b; simpl; now rewrite H. Qed.

Lemma contains_app a pre post : contains a (pre ++ a ++ post) = true.
Proof.
  induction pre as [|x pre IH]; simpl.
  - apply contains_startswith, startswith_app.
  - rewrite IH. now rewrite orb_true_r.
Qed.

End QualquerCaixa.

(** X7.  In text below U+0100 the exclusion ignores case: a match whose
    trimmed description has in it a run of characters that lowers to the
    same as one of the five terms gives no row. *)
Theorem excecao_em_qualquer_caixa (db : ucd) (texto : str) (m : mobj)
    (data_arrec banco g_descricao antes termo depois escrito : str) :
  latin1_compatible db ->
  group texto m descricao = Some g_descricao ->
  strip g_descricao = antes ++ escrito ++ depois ->
  Forall latin1 (strip g_descricao) ->
  In termo EXCECOES_DESCRICAO ->
  map latin1_lower_cp escrito = map latin1_lower_cp termo ->
  linha db data_arrec banco texto m = Ok None.
Proof.
  intros compat Hg Hd Hl1 Hterm Hesc.
  eapply linha_excecao; [exact Hg|].
  unfold excecao. apply existsb_exists. exists termo. split; [assumption|].
  destruct compat as [_ Hlower].
  rewrite (Hlower (strip g_descricao) Hl1).
  assert (Ht : Forall latin1 termo).
  { assert (Hall : Forall (Forall latin1) EXCECOES_DESCRICAO)
      by (repeat constructor).
    rewrite Forall_forall in Hall. now apply Hall. }
  rewrite (Hlower termo Ht), Hd, !map_app, Hesc. apply contains_app.
Qed.

Lemma excecao_em_qualquer_caixa_witness :
  linha latin1_ucd (lit "") (lit "")
    (lit "1234 Pagto. na AGÊNCIA centro 1,00 - - 1,00")
    {| m_start := 0; m_end := 43;
       m_caps := [(total, (39, 43)); (multa, (37, 38)); (juros, (35, 36));
                  (principal, (30, 34)); (descricao, (5, 29));
                  (codigo, (0, 4))] |}
  = Ok None.
Proof.
  apply (@excecao_em_qualquer_caixa latin1_ucd
           (lit "1234 Pagto. na AGÊNCIA centro 1,00 - - 1,00") _
           (lit "") (lit "") (lit "Pagto. na AGÊNCIA centro")
           (lit "Pagto. na ") (lit "Agência") (lit " centro") (lit "AGÊNCIA")).
  - exact latin1_ucd_compatible.
  - vm_compute. reflexivity.
  - vm_compute. reflexivity.
  - apply Forall_forall. intros c Hc. apply N.ltb_lt.
    revert c Hc. apply forallb_forall. vm_compute. reflexivity.
  - simpl. auto.
  - vm_compute. reflexivity.
Defined.


Section Posicoes.

Variable s : str.

Lemma slice_length a w :
  slice a (a + length w) s = w -> length w <= length s - a.
Proof.
  intros H. apply (f_equal (@length cp)) in H. unfold slice in H.
  rewrite length_firstn, length_skipn in H. lia.
Qed.

(** The characters of a slice, one by one. *)
Lemma slice_nth a b i :
  a <= i < b -> nth_error (slice a b s) (i - a) = nth_error s i.
Proof.
  intros Hi. unfold slice. rewrite nth_error_firstn.
  replace (Nat.ltb (i - a) (b - a)) with true
    by (symmetry; apply Nat.ltb_lt; lia).
  rewrite nth_error_skipn. f_equal. lia.
Qed.

Lemma slice_at (P : cp -> Prop) a b :
  b <= length s -> Forall P (slice a b s) ->
  forall i, a <= i < b -> exists c, nth_error s i = Some c /\ P c.
Proof.
  intros Hb H i Hi.
  destruct (nth_error s i) as [c|] eqn:Hc.
  - exists c. split; [reflexivity|].
    rewrite Forall_forall in H. apply H.
    apply nth_error_In with (n := i - a). now rewrite slice_nth.
  - apply nth_error_None in Hc. lia.
Qed.

Lemma slice_all (P : cp -> Prop) a b :
  (forall i, a <= i < b -> exists c, nth_error s i = Some c /\ P c) ->
  Forall P (slice a b s).
Proof.
  intros H. apply Forall_forall. intros c Hc.
  apply In_nth_error in Hc as (k & Hk).
  assert (Hlt : k < b - a).
  { assert (Hk' : nth_error (slice a b s) k <> None) by congruence.
    apply nth_error_Some in Hk'. unfold slice in Hk'.
    rewrite length_firstn in Hk'. lia. }
  replace k with ((a + k) - a) in Hk by lia.
  rewrite slice_nth in Hk by lia.
  destruct (H (a + k)) as (c' & Hc' & HP); [lia|]. congruence.
Qed.

(** One piece of the subject after the other. *)
Lemma peel o w rest :
  skipn o s = w ++ rest ->
  slice o (o + length w) s = w /\ skipn (o + length w) s = rest.
Proof.
  intros H. split.
  - unfold slice. replace (o + length w - o) with (length w + 0) by lia.
    rewrite H, firstn_app_2. simpl. apply app_nil_r.
  - rewrite Nat.add_comm, <- skipn_skipn, H, skipn_app, skipn_all.
    now rewrite Nat.sub_diag.
Qed.

Lemma app_inj_len (x1 x2 y1 y2 : str) :
  length x1 = length y1 -> x1 ++ x2 = y1 ++ y2 -> x1 = y1 /\ x2 = y2.
Proof.
  revert y1. induction x1 as [|a x1 IH]; intros [|b y1] Hl H;
    simpl in *; try discriminate; [auto|].
  injection H as -> H. injection Hl as Hl.
  destruct (IH y1 Hl H) as [-> ->]. auto.
Qed.

Lemma slice_split p w1 w2 :
  slice p (p + length (w1 ++ w2)) s = w1 ++ w2 ->
  slice p (p + length w1) s = w1
  /\ slice (p + length w1) (p + length w1 + length w2) s = w2.
Proof.
  intros H. assert (Hlen := H). apply slice_length in Hlen.
  rewrite length_app in *.
  rewrite (@slice_app s p (p + length w1) (p + (length w1 + length w2)))
    in H by lia.
  apply app_inj_len in H.
  - rewrite Nat.add_assoc in H. exact H.
  - unfold slice. rewrite length_firstn, length_skipn. lia.
Qed.

End Posicoes.

Section Palavras.

Variable db : ucd.
Variable s : str.

(** A word of a pattern without groups, found in the subject, is a match
    of the pattern there. *)
Lemma lang_sem r : groupless r = true -> forall w p cs,
  lang db r w -> slice p (p + length w) s = w ->
  sem db s r {| pos := p; caps := cs |} {| pos := p + length w; caps := cs |}.
Proof.
  induction r as [i|items|r1 IH1 r2 IH2|r1 IH1 r2 IH2|lo hi g r IH|g r IH];
    cbn [groupless lang sem]; intros Hg w p cs Hw Hs; try discriminate.
  - destruct Hw as (c & -> & Hc). exists c. simpl in *.
    split; [|split; [assumption|unfold advance; simpl; f_equal; lia]].
    rewrite <- (@slice_nth s p (p + 1) p) by lia. now rewrite Hs, Nat.sub_diag.
  - destruct Hw as (c & -> & Hc). exists c. simpl in *.
    split; [|split; [assumption|unfold advance; simpl; f_equal; lia]].
    rewrite <- (@slice_nth s p (p + 1) p) by lia. now rewrite Hs, Nat.sub_diag.
  - apply andb_prop in Hg as [Hg1 Hg2].
    destruct Hw as (w1 & w2 & -> & H1 & H2).
    apply slice_split in Hs as [Hs1 Hs2].
    exists {| pos := p + length w1; caps := cs |}. split; [now apply IH1|].
    rewrite length_app, Nat.add_assoc. now apply IH2.
  - apply andb_prop in Hg as [Hg1 Hg2].
    destruct Hw as [Hw|Hw]; [left; now apply IH1|right; now apply IH2].
  - destruct Hw as (n & Hlo & Hhi & Hn). exists n. repeat split; auto.
    clear Hlo Hhi. revert w p Hn Hs.
    induction n as [|n IHn]; simpl; intros w p Hn Hs.
    + subst w. simpl. now rewrite Nat.add_0_r.
    + destruct Hn as (w1 & w2 & -> & H1 & H2).
      apply slice_split in Hs as [Hs1 Hs2].
      exists {| pos := p + length w1; caps := cs |}. split; [now apply IH|].
      rewrite length_app, Nat.add_assoc. now apply IHn.
Qed.

End Palavras.

Section Campos.

Variable s : str.

Lemma branco_cheio i : branco_em s i -> cheio_em s i -> False.
Proof. intros (c & Hc & Hb) (c' & Hc' & Hn). congruence. Qed.

(** From the start of one field to the start of the next: a run without
    white space, then a run of white space, cannot end anywhere but
    where the field and the separator end. *)
Lemma tok_step oK eK oK' b a' :
  oK <= eK -> eK < oK' ->
  (forall i, oK <= i < eK -> cheio_em s i) ->
  (forall i, eK <= i < oK' -> branco_em s i) ->
  cheio_em s oK' ->
  oK < b -> (forall i, oK <= i < b -> cheio_em s i) ->
  b < a' -> (forall i, b <= i < a' -> branco_em s i) ->
  cheio_em s a' ->
  b = eK /\ a' = oK'.
Proof.
  intros H1 H2 HK HS HK' Hb Hnb Ha Hbr Ha'.
  assert (Eb : b = eK).
  { destruct (Nat.lt_trichotomy b eK) as [Hlt|[Heq|Hgt]]; [|assumption|].
    - exfalso. apply (@branco_cheio b); [apply Hbr; lia|apply HK; lia].
    - exfalso. apply (@branco_cheio eK); [apply HS; lia|apply Hnb; lia]. }
  split; [assumption|]. subst b.
  destruct (Nat.lt_trichotomy a' oK') as [Hlt|[Heq|Hgt]]; [|assumption|].
  - exfalso. apply (@branco_cheio a'); [apply HS; lia|assumption].
  - exfalso. apply (@branco_cheio oK'); [apply Hbr; lia|assumption].
Qed.

End Campos.

Section Caracteres.

Variable db : ucd.
Hypothesis compat : latin1_compatible db.

Lemma ascii_digit_not_space c : latin1_isdecimal c = true -> isspace c = false.
Proof.
  unfold latin1_isdecimal, isspace, in_range. intros H.
  apply andb_prop in H as [H1 H2]. apply N.leb_le in H1, H2.
  repeat match goal with
         | |- context [(?a <=? ?b)%N] => destruct (N.leb_spec a b)
         | |- context [(?a =? ?b)%N] => destruct (N.eqb_spec a b)
         end; simpl; try reflexivity; lia.
Qed.

Lemma digito_nao_branco c : latin1 c -> digito db c -> isspace c = false.
Proof.
  intros Hl Hd. unfold digito in Hd. rewrite (proj1 compat c Hl) in Hd.
  now apply ascii_digit_not_space.
Qed.

Lemma rounds_one_intro i w :
  Forall (fun c => accepts db i c = true) w ->
  rounds (length w) (lang db (One i)) w.
Proof.
  induction 1 as [|c w Hc _ IH]; simpl; [reflexivity|].
  exists [c], w. split; [reflexivity|]. split; [|assumption].
  exists c. auto.
Qed.

Lemma brancos_lang w : brancos w -> lang db (plus sp) w.
Proof.
  intros [Hne Hall]. unfold plus. cbn [lang]. exists (length w).
  split; [destruct w; [congruence|simpl; lia]|]. split; [exact I|].
  now apply rounds_one_intro.
Qed.

Lemma lang_brancos w : lang db (plus sp) w -> brancos w.
Proof.
  unfold plus. cbn [lang]. intros (n & Hlo & _ & Hn).
  apply rounds_one in Hn as [Hl Hall]. split; [|exact Hall].
  intros ->. simpl in Hl. lia.
Qed.

Lemma descricao_lang D : D <> [] -> sem_LF D -> lang db (lazy_plus (One Dot)) D.
Proof.
  intros Hne Hlf. unfold lazy_plus. cbn [lang]. exists (length D).
  split; [destruct D; [congruence|simpl; lia]|]. split; [exact I|].
  apply rounds_one_intro. eapply Forall_impl; [|exact Hlf].
  simpl. intros c Hc. apply negb_true_iff. now apply N.eqb_neq.
Qed.

(** The characters of an amount: digits, periods, and one comma, two
    places from the end. *)
Lemma valor_caracteres w :
  lang db valor w ->
  exists u f,
    w = u ++ ord "," :: f /\ length f = 2
    /\ Forall (fun c => digito db c \/ c = ord ".") u
    /\ Forall (digito db) f
    /\ exists c u', u = c :: u' /\ digito db c.
Proof.
  unfold valor, star. cbn [lang].
  intros (w1 & t1 & -> & (n & Hlo & Hhi & H1) & w2 & t2 & -> & (k & _ & _ & H2)
          & w3 & w4 & -> & (c & -> & Hc) & H4).
  apply rounds_one in H1 as [L1 D1].
  apply lang_times_one in H4 as [L4 D4].
  simpl in Hc. apply N.eqb_eq in Hc. subst c.
  exists (w1 ++ w2), w4. split; [now rewrite <- app_assoc|].
  split; [assumption|]. split; [|split; [exact D4|]].
  - apply Forall_app. split.
    + eapply Forall_impl; [|exact D1]. simpl. auto.
    + clear - H2. revert w2 H2.
      induction k as [|k IH]; cbn [rounds lang]; intros w2 H2.
      * subst. constructor.
      * destruct H2 as (x & y & -> & (p & ds & -> & (c & -> & Hc) & Hds) & H2).
        apply lang_times_one in Hds as [_ Hds]. simpl in Hc.
        apply N.eqb_eq in Hc. subst c.
        apply Forall_app. split; [|now apply IH].
        constructor; [now right|].
        eapply Forall_impl; [|exact Hds]. simpl. auto.
  - destruct w1 as [|c w1]; [simpl in L1; lia|].
    exists c, (w1 ++ w2). split; [reflexivity|].
    now inversion D1.
Qed.

Lemma valor_sem_brancos w :
  Forall latin1 w -> lang db valor w ->
  Forall (fun c => isspace c = false) w /\ w <> []
  /\ exists c w', w = c :: w' /\ digito db c.
Proof.
  intros Hl Hw.
  apply valor_caracteres in Hw as (u & f & -> & Lf & Du & Df & c & u' & -> & Hc).
  split; [|split; [discriminate|exists c, (u' ++ ord "," :: f); auto]].
  apply Forall_app in Hl as [Hlu Hlf]. inversion Hlf as [|? ? _ Hlf']; subst.
  apply Forall_app. split; [|constructor; [reflexivity|]].
  - rewrite Forall_forall in *. intros x Hx.
    destruct (Du x Hx) as [Hd| ->]; [|reflexivity].
    apply digito_nao_branco; auto.
  - rewrite Forall_forall in *. intros x Hx.
    apply digito_nao_branco; auto.
Qed.

Lemma valor_ou_traco_sem_brancos w :
  Forall latin1 w -> lang db (Alt valor (One (Char "-"))) w ->
  Forall (fun c => isspace c = false) w /\ w <> [].
Proof.
  intros Hl. cbn [lang]. intros [H|(c & -> & Hc)].
  - apply valor_sem_brancos in H; tauto.
  - simpl in Hc. apply N.eqb_eq in Hc. subst c.
    split; [repeat constructor|discriminate].
Qed.

(** An amount does not go on as a longer amount. *)
Lemma valor_sem_prefixo w rest :
  lang db valor w -> lang db valor (w ++ rest) -> rest = [].
Proof.
  intros Hw Hwr.
  apply valor_caracteres in Hw as (u & f & -> & Lf & Du & Df & _).
  apply valor_caracteres in Hwr as (u2 & f2 & E & Lf2 & Du2 & Df2 & _).
  assert (Hnc : forall x, Forall (fun c => digito db c \/ c = ord ".") x ->
                          ~ In (ord ",") x).
  { intros x Hx Hin. rewrite Forall_forall in Hx.
    destruct (Hx _ Hin) as [Hd|Hd]; [|discriminate].
    apply (@digito_nao_e db compat (ord ",") (ord ","));
      [reflexivity|reflexivity|exact Hd|reflexivity]. }
  rewrite <- app_assoc in E. simpl in E.
  apply app_inj_pivot in E.
  destruct E as [[[Hin _]|[_ Hin]]|[-> E]].
  - exfalso. now apply (Hnc u).
  - exfalso. now apply (Hnc u2).
  - destruct f as [|a [|b [|? ?]]]; try discriminate.
    destruct f2 as [|a2 [|b2 [|? ?]]]; try discriminate.
    simpl in E. injection E as _ _ E. assumption.
Qed.

End Caracteres.

Section Pontas.

Lemma lstrip_strip s : lstrip (strip s) = strip s.
Proof.
  apply lstrip_fix. intros c t Hc.
  destruct (lstrip_split (rev (lstrip s))) as (ws & H2 & _).
  apply (f_equal (@rev cp)) in H2.
  rewrite rev_involutive, rev_app_distr in H2.
  change (rev (lstrip (rev (lstrip s)))) with (strip s) in H2.
  rewrite Hc in H2. simpl in H2. now apply lstrip_head in H2.
Qed.

(** A trimmed string neither starts nor ends with white space. *)
Lemma aparado_pontas D :
  aparado D ->
  lstrip D = D /\ lstrip (rev D) = rev D.
Proof.
  unfold aparado. intros H.
  assert (Hl : lstrip D = D) by (rewrite <- H at 2; rewrite <- lstrip_strip, H; reflexivity).
  split; [assumption|].
  unfold strip, rstrip in H. rewrite Hl in H.
  apply (f_equal (@rev cp)) in H. now rewrite rev_involutive in H.
Qed.

Lemma lstrip_brancos a x :
  Forall (fun c => isspace c = true) a -> lstrip (a ++ x) = lstrip x.
Proof.
  induction 1 as [|c a Hc _ IH]; simpl; [reflexivity|]. now rewrite Hc.
Qed.

Lemma lstrip_cheio x y : x <> [] -> lstrip x = x -> lstrip (x ++ y) = x ++ y.
Proof.
  destruct x as [|c x]; [congruence|]. intros _ H. simpl in *.
  destruct (isspace c) eqn:Hc; [|reflexivity].
  exfalso. destruct (lstrip_split x) as (ws & Hx & _).
  apply (f_equal (@length cp)) in Hx. rewrite length_app, H in Hx.
  simpl in Hx. lia.
Qed.

(** White space around a trimmed string is all that [strip] takes. *)
Lemma strip_pad a D b :
  Forall (fun c => isspace c = true) a ->
  Forall (fun c => isspace c = true) b ->
  D <> [] -> aparado D ->
  strip (a ++ D ++ b) = D.
Proof.
  intros Ha Hb Hne HD. apply aparado_pontas in HD as [Hl Hr].
  unfold strip, rstrip.
  rewrite lstrip_brancos by assumption.
  rewrite lstrip_cheio by assumption.
  rewrite rev_app_distr, lstrip_brancos by (now apply Forall_rev).
  rewrite Hr. apply rev_involutive.
Qed.

End Pontas.

Section Medidas.

Variable db : ucd.
Hypothesis compat : latin1_compatible db.
Variable s : str.
Hypothesis s_latin1 : Forall latin1 s.

Lemma em_brancos a b :
  b <= length s -> lang db (plus sp) (slice a b s) ->
  a < b /\ forall i, a <= i < b -> branco_em s i.
Proof.
  intros Hb H. apply lang_brancos in H as [Hne Hall].
  assert (Hl := length_slice s a Hb).
  split.
  - destruct (slice a b s); [congruence|simpl in Hl; lia].
  - intros i Hi. now apply (slice_at _ Hb Hall).
Qed.

Lemma em_valor a b :
  b <= length s -> lang db valor (slice a b s) ->
  a + 4 <= b /\ (forall i, a <= i < b -> cheio_em s i)
  /\ exists c, nth_error s a = Some c /\ digito db c.
Proof.
  intros Hb H. assert (Hl := length_slice s a Hb).
  assert (H4 := H). apply valor_forma_decimal in H4 as [_ H4]; [|assumption].
  apply valor_sem_brancos in H as (Hall & _ & c & w' & Hw & Hc);
    [|assumption|now apply Forall_slice].
  split; [lia|]. split.
  - intros i Hi. now apply (slice_at _ Hb Hall).
  - exists c. split; [|assumption].
    rewrite <- (@slice_nth s a b a) by lia. now rewrite Hw, Nat.sub_diag.
Qed.

Lemma em_valor_ou_traco a b :
  b <= length s -> lang db (Alt valor (One (Char "-"))) (slice a b s) ->
  a < b /\ forall i, a <= i < b -> cheio_em s i.
Proof.
  intros Hb H. assert (Hl := length_slice s a Hb).
  apply valor_ou_traco_sem_brancos in H as (Hall & Hne);
    [|assumption|now apply Forall_slice].
  split.
  - destruct (slice a b s); [congruence|simpl in Hl; lia].
  - intros i Hi. now apply (slice_at _ Hb Hall).
Qed.

Lemma em_descricao a b :
  b <= length s -> lang db (lazy_plus (One Dot)) (slice a b s) -> a < b.
Proof.
  intros Hb H. assert (Hl := length_slice s a Hb).
  unfold lazy_plus in H. cbn [lang] in H. destruct H as (n & Hlo & _ & Hn).
  apply rounds_one in Hn as [Hn _]. lia.
Qed.

Lemma em_codigo b :
  b <= length s -> lang db (times 4 d) (slice 0 b s) -> b = 4.
Proof.
  intros Hb H. assert (Hl := length_slice s 0 Hb).
  apply lang_times_one in H as [H _]. lia.
Qed.

End Medidas.

Section Formas.

Variable db : ucd.

Lemma sem_digito_inicial_spec apos_branco D :
  sem_digito_inicial db apos_branco D = true ->
  forall a c b, D = a ++ c :: b -> digito db c ->
    (a = [] /\ apos_branco = false)
    \/ exists a' x, a = a' ++ [x] /\ isspace x = false.
Proof.
  revert apos_branco. induction D as [|c0 t IH]; intros pb H a c b E Hd.
  - destruct a; discriminate.
  - simpl in H. apply andb_prop in H as [H0 Ht].
    destruct a as [|a0 a1]; simpl in E; injection E as -> E.
    + left. split; [reflexivity|]. unfold digito in Hd. rewrite Hd in H0.
      destruct pb; [discriminate|reflexivity].
    + right. destruct (IH _ Ht a1 c b E Hd) as [[-> Hs]|(a' & x & -> & Hx)].
      * exists [], a0. auto.
      * exists (a0 :: a'), x. auto.
Qed.

Lemma quatro_digitos_lang w :
  length w = 4 -> Forall (digito db) w -> lang db (times 4 d) w.
Proof.
  intros Hl Hw. unfold times. cbn [lang]. exists 4.
  split; [lia|]. split; [simpl; lia|]. rewrite <- Hl.
  now apply rounds_one_intro.
Qed.

(** An amount as printed is a word of the amount pattern. *)
Lemma quantia_lang v : quantia db v -> lang db valor v.
Proof.
  intros (i & gs & f & -> & Li & Di & Dg & Lf & Df).
  unfold valor, star. cbn [lang].
  exists i, (concat (map (fun g => ord "." :: g) gs) ++ ord "," :: f).
  split; [reflexivity|]. split.
  { exists (length i). split; [lia|]. split; [simpl; lia|].
    now apply rounds_one_intro. }
  exists (concat (map (fun g => ord "." :: g) gs)), (ord "," :: f).
  split; [reflexivity|]. split.
  { exists (length gs). split; [lia|]. split; [exact I|].
    induction Dg as [|g gs [Lg Hg] _ IH]; cbn [rounds map concat length];
      [reflexivity|].
    exists (ord "." :: g), (concat (map (fun g => ord "." :: g) gs)).
    split; [reflexivity|]. split; [|exact IH].
    cbn [lang]. exists [ord "."], g. split; [reflexivity|]. split.
    - exists (ord "."). split; [reflexivity|]. reflexivity.
    - unfold times. cbn [lang]. exists 3. split; [lia|]. split; [simpl; lia|].
      rewrite <- Lg. now apply rounds_one_intro. }
  exists [ord ","], f. split; [reflexivity|]. split.
  - exists (ord ","). split; [reflexivity|]. reflexivity.
  - unfold times. cbn [lang]. exists 2. split; [lia|]. split; [simpl; lia|].
    rewrite <- Lf. now apply rounds_one_intro.
Qed.

Lemma quantia_ou_traco_lang v :
  quantia_ou_traco db v -> lang db (Alt valor (One (Char "-"))) v.
Proof.
  intros [H| ->]; cbn [lang]; [left; now apply quantia_lang|right].
  exists (ord "-"). split; [reflexivity|]. reflexivity.
Qed.

Variable s : str.

Lemma sem_group_intro g r rest p cs w st1 :
  groupless r = true -> lang db r w -> slice p (p + length w) s = w ->
  sem db s rest
    {| pos := p + length w; caps := (g, (p, p + length w)) :: cs |} st1 ->
  sem db s (Seq (Group g r) rest) {| pos := p; caps := cs |} st1.
Proof.
  intros Hg Hw Hs Hrest. cbn [sem].
  exists {| pos := p + length w; caps := (g, (p, p + length w)) :: cs |}.
  split; [|assumption].
  exists {| pos := p + length w; caps := cs |}.
  split; [now apply lang_sem|reflexivity].
Qed.

Lemma sem_plain_intro r rest p cs w st1 :
  groupless r = true -> lang db r w -> slice p (p + length w) s = w ->
  sem db s rest {| pos := p + length w; caps := cs |} st1 ->
  sem db s (Seq r rest) {| pos := p; caps := cs |} st1.
Proof.
  intros Hg Hw Hs Hrest. cbn [sem].
  exists {| pos := p + length w; caps := cs |}.
  split; [now apply lang_sem|assumption].
Qed.

Lemma sem_group_intro_last g r p cs w :
  groupless r = true -> lang db r w -> slice p (p + length w) s = w ->
  sem db s (Group g r) {| pos := p; caps := cs |}
    {| pos := p + length w; caps := (g, (p, p + length w)) :: cs |}.
Proof.
  intros Hg Hw Hs. cbn [sem].
  exists {| pos := p + length w; caps := cs |}.
  split; [now apply lang_sem|reflexivity].
Qed.

End Formas.

Section UmMatch.

Variable db : ucd.
Variable s : str.

(** A match at the start that takes the whole subject, of a pattern with
    no match at the end of it, is all that [finditer] yields. *)
Lemma finditer_um r m :
  match_at db s r false 0 = Ok (Some m) ->
  m_end m = length s ->
  (forall ma, match_at db s r ma (length s) = Ok None) ->
  finditer db s r = Ok [m].
Proof.
  intros Hat Hend Hfim. unfold finditer.
  replace (2 * length s + 3) with (S (S (2 * length s + 1))) by lia.
  cbn [finditer_loop]. unfold search_from. rewrite Nat.sub_0_r.
  cbn [search_loop]. rewrite Hat. cbn [bind].
  rewrite Hend, Nat.sub_diag. cbn [search_loop]. rewrite Hfim.
  reflexivity.
Qed.

End UmMatch.

Section LinhaBemFormada.

Variable db : ucd.
Hypothesis compat : latin1_compatible db.
Variables C w1 D w2 P w3 J w4 M w5 T : str.

(* The page: the six fields with white space between them, and where
   each part of it starts. *)
Local Notation "'pag'" :=
  (C ++ w1 ++ D ++ w2 ++ P ++ w3 ++ J ++ w4 ++ M ++ w5 ++ T) (only parsing).
Local Notation "'o1'" := (length C) (only parsing).
Local Notation "'oD'" := (length C + length w1) (only parsing).
Local Notation "'o2'" := (length C + length w1 + length D) (only parsing).
Local Notation "'oP'" :=
  (length C + length w1 + length D + length w2) (only parsing).
Local Notation "'o3'" :=
  (length C + length w1 + length D + length w2 + length P) (only parsing).
Local Notation "'oJ'" :=
  (length C + length w1 + length D + length w2 + length P + length w3)
  (only parsing).
Local Notation "'o4'" :=
  (length C + length w1 + length D + length w2 + length P + length w3
   + length J) (only parsing).
Local Notation "'oM'" :=
  (length C + length w1 + length D + length w2 + length P + length w3
   + length J + length w4) (only parsing).
Local Notation "'o5'" :=
  (length C + length w1 + length D + length w2 + length P + length w3
   + length J + length w4 + length M) (only parsing).
Local Notation "'oT'" :=
  (length C + length w1 + length D + length w2 + length P + length w3
   + length J + length w4 + length M + length w5) (only parsing).
Local Notation "'oE'" :=
  (length C + length w1 + length D + length w2 + length P + length w3
   + length J + length w4 + length M + length w5 + length T) (only parsing).

Hypothesis Hlat : Forall latin1 pag.
Hypothesis HC : lang db (times 4 d) C.
Hypothesis H1 : brancos w1.
Hypothesis HD : descricao_simples db D.
Hypothesis H2 : brancos w2.
Hypothesis HP : lang db valor P.
Hypothesis H3 : brancos w3.
Hypothesis HJ : lang db (Alt valor (One (Char "-"))) J.
Hypothesis H4 : brancos w4.
Hypothesis HM : lang db (Alt valor (One (Char "-"))) M.
Hypothesis H5 : brancos w5.
Hypothesis HT : lang db valor T.

Lemma pecas :
  slice 0 o1 pag = C /\ slice o1 oD pag = w1 /\ slice oD o2 pag = D
  /\ slice o2 oP pag = w2 /\ slice oP o3 pag = P /\ slice o3 oJ pag = w3
  /\ slice oJ o4 pag = J /\ slice o4 oM pag = w4 /\ slice oM o5 pag = M
  /\ slice o5 oT pag = w5 /\ slice oT oE pag = T /\ length pag = oE.
Proof.
  assert (S0 : skipn 0 pag = pag) by reflexivity.
  apply peel in S0 as [EC S0]. simpl in EC, S0.
  apply peel in S0 as [E1 S0]. apply peel in S0 as [ED S0].
  apply peel in S0 as [E2 S0]. apply peel in S0 as [EP S0].
  apply peel in S0 as [E3 S0]. apply peel in S0 as [EJ S0].
  apply peel in S0 as [E4 S0]. apply peel in S0 as [EM S0].
  apply peel in S0 as [E5 S0].
  rewrite <- (app_nil_r T) in S0 at 2. apply peel in S0 as [ET _].
  repeat (split; [assumption|]). rewrite !length_app. lia.
Qed.

Lemma latin1_pecas :
  Forall latin1 P /\ Forall latin1 J /\ Forall latin1 M /\ Forall latin1 T.
Proof.
  pose proof Hlat as H.
  repeat (apply Forall_app in H as [? H]). auto.
Qed.

Lemma medidas :
  o1 = 4 /\ 0 < length w1 /\ 0 < length D /\ 0 < length w2
  /\ 4 <= length P /\ 0 < length w3 /\ 0 < length J /\ 0 < length w4
  /\ 0 < length M /\ 0 < length w5 /\ 4 <= length T.
Proof.
  destruct latin1_pecas as (LP & LJ & LM & LT).
  assert (Hb : forall w, brancos w -> 0 < length w).
  { intros [|c w] [Hne _]; [congruence|simpl; lia]. }
  assert (Hv : forall w, Forall latin1 w ->
                         lang db (Alt valor (One (Char "-"))) w -> 0 < length w).
  { intros w Hl Hw. apply valor_ou_traco_sem_brancos in Hw as [_ Hne]; auto.
    destruct w; [congruence|simpl; lia]. }
  split; [now apply lang_times_one in HC|].
  split; [auto|]. split; [destruct HD as [Hne _]; destruct D; [congruence|simpl; lia]|].
  split; [auto|]. split; [now apply valor_forma_decimal in HP|].
  split; [auto|]. split; [auto|]. split; [auto|]. split; [auto|].
  split; [auto|]. now apply valor_forma_decimal in HT.
Qed.

Lemma regioes :
  (forall i, o1 <= i < oD -> branco_em pag i)
  /\ cheio_em pag oD /\ cheio_em pag (o2 - 1)
  /\ (forall i c, oD <= i < o2 -> nth_error pag i = Some c -> digito db c ->
                  oD < i /\ cheio_em pag (i - 1))
  /\ (forall i, o2 <= i < oP -> branco_em pag i)
  /\ (forall i, oP <= i < o3 -> cheio_em pag i)
  /\ (forall i, o3 <= i < oJ -> branco_em pag i)
  /\ (forall i, oJ <= i < o4 -> cheio_em pag i)
  /\ (forall i, o4 <= i < oM -> branco_em pag i)
  /\ (forall i, oM <= i < o5 -> cheio_em pag i)
  /\ (forall i, o5 <= i < oT -> branco_em pag i)
  /\ (forall i, oT <= i < oE -> cheio_em pag i).
Proof.
  destruct pecas as (EC & E1 & ED & E2 & EP & E3 & EJ & E4 & EM & E5 & ET & EL).
  destruct latin1_pecas as (LP & LJ & LM & LT).
  destruct medidas as (M0 & M1 & MD & M2 & MP & M3 & MJ & M4 & MM & M5 & MT).
  assert (Hbr : forall a b w, slice a b pag = w -> b <= length pag ->
                  brancos w -> forall i, a <= i < b -> branco_em pag i).
  { intros a b w E Hb [_ Hw] i Hi. eapply slice_at; eauto. now rewrite E. }
  assert (Hch : forall a b w, slice a b pag = w -> b <= length pag ->
                  Forall (fun c => isspace c = false) w ->
                  forall i, a <= i < b -> cheio_em pag i).
  { intros a b w E Hb Hw i Hi. eapply slice_at; eauto. now rewrite E. }
  destruct HD as (Dne & Dlf & Dap & Ddig).
  pose proof (@sem_digito_inicial_spec _ _ _ Ddig) as Ddig'.
  apply aparado_pontas in Dap as [Dl Dr].
  assert (HnD : forall i, oD <= i < o2 -> nth_error pag i = nth_error D (i - oD)).
  { intros i Hi. pose proof (@slice_nth pag oD o2 i Hi) as Hn.
    rewrite ED in Hn. now symmetry. }
  split; [eapply Hbr; eauto; lia|].
  split.
  { destruct D as [|c t] eqn:E; [congruence|]. exists c.
    split; [rewrite HnD by (simpl in *; lia); now rewrite Nat.sub_diag|].
    now apply lstrip_head in Dl. }
  split.
  { destruct (exists_last Dne) as (t & c & E). exists c.
    assert (Hlast : nth_error D (length D - 1) = Some c).
    { rewrite E, length_app, nth_error_app2 by (simpl; lia). simpl.
      replace (_ - length t) with 0 by lia. reflexivity. }
    split.
    - rewrite HnD by lia. rewrite <- Hlast. f_equal. lia.
    - rewrite E, rev_app_distr in Dr.
      change (rev [c] ++ rev t) with (c :: rev t) in Dr.
      now apply lstrip_head in Dr. }
  split.
  { intros i c Hi Hc Hd. rewrite HnD in Hc by assumption.
    apply nth_error_split in Hc as (a & b & E & La).
    destruct (Ddig' a c b E Hd) as [[_ Hf]|(a' & x & Ea & Hx)];
      [discriminate|].
    assert (Lx : length a = S (length a'))
      by (rewrite Ea, length_app; simpl; lia).
    split; [lia|]. exists x. split; [|assumption].
    assert (Hx' : nth_error D (length a') = Some x).
    { rewrite E, Ea, <- !app_assoc. simpl.
      rewrite nth_error_app2 by lia. now rewrite Nat.sub_diag. }
    rewrite HnD by lia. rewrite <- Hx'. f_equal. lia. }
  assert (NP : Forall (fun c => isspace c = false) P).
  { pose proof HP as X. apply valor_sem_brancos in X; tauto. }
  assert (NJ : Forall (fun c => isspace c = false) J).
  { pose proof HJ as X. apply valor_ou_traco_sem_brancos in X; tauto. }
  assert (NM : Forall (fun c => isspace c = false) M).
  { pose proof HM as X. apply valor_ou_traco_sem_brancos in X; tauto. }
  assert (NT : Forall (fun c => isspace c = false) T).
  { pose proof HT as X. apply valor_sem_brancos in X; tauto. }
  split; [eapply Hbr; eauto; lia|].
  split; [eapply Hch; eauto; lia|].
  split; [eapply Hbr; eauto; lia|].
  split; [eapply Hch; eauto; lia|].
  split; [eapply Hbr; eauto; lia|].
  split; [eapply Hch; eauto; lia|].
  split; [eapply Hbr; eauto; lia|].
  eapply Hch; eauto; lia.
Qed.


Ltac em :=
  solve [ assumption
        | match goal with
          | H : forall i, _ -> branco_em _ i |- branco_em _ _ => apply H; lia
          | H : forall i, _ -> cheio_em _ i |- cheio_em _ _ => apply H; lia
          end ].

Ltac absurdo i := exfalso; apply (@branco_cheio pag i); em.

(** Whatever way the line pattern matches the page from its start, the
    groups are the six fields. *)
Lemma unico m :
  match_of db pag pattern_linha m -> m_start m = 0 ->
  group pag m codigo = Some C
  /\ (exists gd, group pag m descricao = Some gd /\ strip gd = D)
  /\ group pag m principal = Some P /\ group pag m juros = Some J
  /\ group pag m multa = Some M /\ group pag m total = Some T
  /\ m_end m = length pag.
Proof.
  intros Hm H0.
  assert (Hin : m_start m <= m_end m <= length pag)
    by (eapply match_of_inside; [eassumption|lia]).
  destruct Hm as (st1 & Hsem & Hend & Hcaps). rewrite H0 in Hsem.
  rewrite Hend in Hin. unfold pattern_linha in Hsem.
  apply sem_group_word in Hsem as (s1 & Hsem & C1 & W1 & L1); [|reflexivity].
  apply sem_plain_word in Hsem as (s2 & Hsem & C2 & W2 & L2); [|reflexivity].
  apply sem_group_word in Hsem as (s3 & Hsem & C3 & W3 & L3); [|reflexivity].
  apply sem_plain_word in Hsem as (s4 & Hsem & C4 & W4 & L4); [|reflexivity].
  apply sem_group_word in Hsem as (s5 & Hsem & C5 & W5 & L5); [|reflexivity].
  apply sem_plain_word in Hsem as (s6 & Hsem & C6 & W6 & L6); [|reflexivity].
  apply sem_group_word in Hsem as (s7 & Hsem & C7 & W7 & L7); [|reflexivity].
  apply sem_plain_word in Hsem as (s8 & Hsem & C8 & W8 & L8); [|reflexivity].
  apply sem_group_word in Hsem as (s9 & Hsem & C9 & W9 & L9); [|reflexivity].
  apply sem_plain_word in Hsem as (s10 & Hsem & C10 & W10 & L10); [|reflexivity].
  apply sem_group_word_last in Hsem as (C11 & W11 & L11); [|reflexivity].
  cbn [pos caps] in *.
  remember (pos s1) as q1. remember (pos s2) as q2. remember (pos s3) as q3.
  remember (pos s4) as q4. remember (pos s5) as q5. remember (pos s6) as q6.
  remember (pos s7) as q7. remember (pos s8) as q8. remember (pos s9) as q9.
  remember (pos s10) as q10. remember (pos st1) as q11.
  destruct pecas as (EC & E1 & ED & E2 & EP & E3 & EJ & E4 & EM & E5 & ET & EL).
  destruct medidas as (M0 & M1 & MD & M2 & MP & M3 & MJ & M4 & MM & M5 & MT).
  destruct regioes
    as (R1 & RD0 & RD1 & RDd & R2 & RP & R3 & RJ & R4 & RM & R5 & RT).
  (* what the parts of the match are made of *)
  assert (Q1 : q1 = 4) by (eapply em_codigo; [|exact W1]; lia).
  apply em_brancos in W2 as [B2 B2']; [|lia].
  apply em_descricao in W3; [|lia].
  apply em_brancos in W4 as [B4 B4']; [|lia].
  assert (V5 := W5).
  apply em_valor in V5 as (V5 & V5' & c5 & Hc5 & Hd5); [|assumption|assumption|lia].
  apply em_brancos in W6 as [B6 B6']; [|lia].
  assert (V7 := W7).
  apply em_valor_ou_traco in V7 as [V7 V7']; [|assumption|assumption|lia].
  apply em_brancos in W8 as [B8 B8']; [|lia].
  assert (V9 := W9).
  apply em_valor_ou_traco in V9 as [V9 V9']; [|assumption|assumption|lia].
  apply em_brancos in W10 as [B10 B10']; [|lia].
  assert (V11 := W11).
  apply em_valor in V11 as (V11 & V11' & _); [|assumption|assumption|lia].
  (* the principal starts where a field starts *)
  assert (Hq4 : q4 = oP \/ q4 = oJ \/ q4 = oM \/ q4 = oT).
  { assert (Hb : branco_em pag (q4 - 1)) by (apply B4'; lia).
    assert (Hc : cheio_em pag q4) by (apply V5'; lia).
    destruct (Nat.lt_ge_cases q4 oD); [absurdo q4|].
    destruct (Nat.lt_ge_cases q4 o2).
    { destruct (RDd q4 c5) as [_ Hx]; [lia|assumption|assumption|].
      absurdo (q4 - 1). }
    destruct (Nat.lt_ge_cases q4 oP); [absurdo q4|].
    destruct (Nat.eq_dec q4 oP); [tauto|].
    destruct (Nat.lt_ge_cases q4 o3); [absurdo (q4 - 1)|].
    destruct (Nat.lt_ge_cases q4 oJ); [absurdo q4|].
    destruct (Nat.eq_dec q4 oJ); [tauto|].
    destruct (Nat.lt_ge_cases q4 o4); [absurdo (q4 - 1)|].
    destruct (Nat.lt_ge_cases q4 oM); [absurdo q4|].
    destruct (Nat.eq_dec q4 oM); [tauto|].
    destruct (Nat.lt_ge_cases q4 o5); [absurdo (q4 - 1)|].
    destruct (Nat.lt_ge_cases q4 oT); [absurdo q4|].
    destruct (Nat.eq_dec q4 oT); [tauto|].
    absurdo (q4 - 1). }
  assert (HcJ : cheio_em pag oJ) by (apply RJ; lia).
  assert (HcM : cheio_em pag oM) by (apply RM; lia).
  assert (HcT : cheio_em pag oT) by (apply RT; lia).
  assert (Hc6 : cheio_em pag q6) by (apply V7'; lia).
  assert (Hc8 : cheio_em pag q8) by (apply V9'; lia).
  assert (Hc10 : cheio_em pag q10) by (apply V11'; lia).
  assert (Hb5 : branco_em pag q5) by (apply B6'; lia).
  assert (Hb7 : branco_em pag q7) by (apply B8'; lia).
  assert (Hb9 : branco_em pag q9) by (apply B10'; lia).
  assert (Epos : q4 = oP /\ q5 = o3 /\ q6 = oJ /\ q7 = o4 /\ q8 = oM
                 /\ q9 = o5 /\ q10 = oT).
  { destruct Hq4 as [E|[E|[E|E]]].
    - assert (X56 : q5 = o3 /\ q6 = oJ)
        by (apply (@tok_step pag oP o3 oJ q5 q6);
            first [lia | em | intros i Hi; em]).
      assert (X78 : q7 = o4 /\ q8 = oM)
        by (apply (@tok_step pag oJ o4 oM q7 q8);
            first [lia | em | intros i Hi; em]).
      assert (X90 : q9 = o5 /\ q10 = oT)
        by (apply (@tok_step pag oM o5 oT q9 q10);
            first [lia | em | intros i Hi; em]).
      lia.
    - assert (X56 : q5 = o4 /\ q6 = oM)
        by (apply (@tok_step pag oJ o4 oM q5 q6);
            first [lia | em | intros i Hi; em]).
      assert (X78 : q7 = o5 /\ q8 = oT)
        by (apply (@tok_step pag oM o5 oT q7 q8);
            first [lia | em | intros i Hi; em]).
      absurdo q9.
    - assert (X56 : q5 = o5 /\ q6 = oT)
        by (apply (@tok_step pag oM o5 oT q5 q6);
            first [lia | em | intros i Hi; em]).
      absurdo q7.
    - absurdo q5. }
  destruct Epos as (X4 & X5 & X6 & X7 & X8 & X9 & X10).
  (* the total ends with the page *)
  assert (X11 : q11 = oE).
  { assert (Hs : slice q10 oE pag = slice q10 q11 pag ++ slice q11 oE pag)
      by (apply slice_app; lia).
    rewrite X10, ET in Hs.
    assert (Hr : slice q11 oE pag = []).
    { eapply valor_sem_prefixo; [exact compat| |rewrite <- Hs; exact HT].
      rewrite <- X10. exact W11. }
    apply (f_equal (@length cp)) in Hr.
    rewrite length_slice in Hr by lia. simpl in Hr. lia. }
  (* the description, with the white space that goes with it *)
  assert (Y2 : q2 <= oD).
  { destruct (Nat.le_gt_cases q2 oD); [assumption|]. absurdo oD. }
  assert (Y3 : o2 <= q3).
  { destruct (Nat.le_gt_cases o2 q3); [assumption|]. absurdo (o2 - 1). }
  assert (Hgd : strip (slice q2 q3 pag) = D).
  { rewrite (@slice_app pag q2 oD q3) by lia.
    rewrite (@slice_app pag oD o2 q3) by lia. rewrite ED.
    apply strip_pad.
    - apply slice_all. intros i Hi. apply R1. lia.
    - apply slice_all. intros i Hi. apply R2. lia.
    - apply HD.
    - apply HD. }
  unfold group. rewrite Hcaps, C11, C10, C9, C8, C7, C6, C5, C4, C3, C2, C1.
  cbn [span Nat.eqb codigo descricao principal juros multa total].
  split; [rewrite Q1, <- M0; now rewrite EC|].
  split; [exists (slice q2 q3 pag); split; [reflexivity|exact Hgd]|].
  split; [now rewrite X4, X5, EP|]. split; [now rewrite X6, X7, EJ|].
  split; [now rewrite X8, X9, EM|]. split; [now rewrite X10, X11, ET|].
  rewrite Hend. lia.
Qed.

Hypothesis Hexc : excecao db D = false.

(** The pattern has a match at the start of the line. *)
Lemma existe :
  exists st1, sem db pag pattern_linha {| pos := 0; caps := [] |} st1.
Proof.
  destruct pecas as (EC & E1 & ED & E2 & EP & E3 & EJ & E4 & EM & E5 & ET & _).
  destruct HD as (Dne & Dlf & _ & _).
  eexists. unfold pattern_linha.
  eapply sem_group_intro with (w := C);
    [reflexivity|exact HC|exact EC|].
  eapply sem_plain_intro with (w := w1);
    [reflexivity|now apply brancos_lang|exact E1|].
  eapply sem_group_intro with (w := D);
    [reflexivity|now apply descricao_lang|exact ED|].
  eapply sem_plain_intro with (w := w2);
    [reflexivity|now apply brancos_lang|exact E2|].
  eapply sem_group_intro with (w := P);
    [reflexivity|exact HP|exact EP|].
  eapply sem_plain_intro with (w := w3);
    [reflexivity|now apply brancos_lang|exact E3|].
  eapply sem_group_intro with (w := J);
    [reflexivity|exact HJ|exact EJ|].
  eapply sem_plain_intro with (w := w4);
    [reflexivity|now apply brancos_lang|exact E4|].
  eapply sem_group_intro with (w := M);
    [reflexivity|exact HM|exact EM|].
  eapply sem_plain_intro with (w := w5);
    [reflexivity|now apply brancos_lang|exact E5|].
  eapply sem_group_intro_last with (w := T);
    [reflexivity|exact HT|exact ET].
Qed.

(** [finditer] yields one match, with the six fields as its groups. *)
Lemma um_match :
  exists m,
    finditer db pag pattern_linha = Ok [m]
    /\ group pag m codigo = Some C
    /\ (exists gd, group pag m descricao = Some gd /\ strip gd = D)
    /\ group pag m principal = Some P /\ group pag m juros = Some J
    /\ group pag m multa = Some M /\ group pag m total = Some T.
Proof.
  destruct existe as (st1 & Hsem).
  pose proof (@match_at_sound db pag pattern_linha false 0 _
                productive_linha eq_refl) as Hs.
  destruct (match_at db pag pattern_linha false 0) as [[m|]|e] eqn:Hat;
    [|exfalso; eapply match_at_complete; eassumption|contradiction].
  destruct Hs as (Hm & H0 & _).
  destruct (unico Hm H0) as (G1 & G2 & G3 & G4 & G5 & G6 & Hend).
  exists m. split; [|tauto].
  apply finditer_um; [exact Hat|exact Hend|].
  intros ma.
  pose proof (@match_at_sound db pag pattern_linha ma (length pag) _
                productive_linha eq_refl) as Hs.
  destruct (match_at db pag pattern_linha ma (length pag)) as [[m'|]|e'];
    [|reflexivity|contradiction].
  destruct Hs as (Hm' & H0' & _). apply linha_toma_20 in Hm'. lia.
Qed.

Lemma uma_linha :
  exists data banco,
    extrair_dados db [pag]
    = Ok [{| Codigo_do_DARF := C; Descricao := D;
             Data_de_Arrecadacao := data; Banco := banco;
             Valor_Principal := decimal P; Juros := decimal_ou_zero J;
             Multa := decimal_ou_zero M; Total := decimal T |}].
Proof.
  destruct um_match as (m & Hf & G1 & (gd & G2 & Hgd) & G3 & G4 & G5 & G6).
  destruct (data_banco_da_pagina_ok db pag) as (da & b & Hdb).
  exists da, b. unfold extrair_dados. cbn [for_each]. unfold pagina.
  rewrite Hdb. cbn [bind]. rewrite Hf. cbn [bind for_each].
  unfold append_linha, linha, group_str.
  rewrite G2. cbn [bind]. rewrite Hgd, Hexc, G1, G3, G4, G5, G6.
  reflexivity.
Qed.

End LinhaBemFormada.

(** X9.  A page that is one well-formed line gives exactly one row, with
    the fields as written: four digits, white space, a description (not
    empty, on one line, trimmed, no digit at its start or right after
    white space, none of the exclusion terms), and, each after white
    space, an amount, two amounts or hyphens, and an amount.  The text is
    in Latin-1. *)
Theorem linha_bem_formada (db : ucd) (C w1 D w2 P w3 J w4 M w5 T : str) :
  latin1_compatible db ->
  Forall latin1 (C ++ w1 ++ D ++ w2 ++ P ++ w3 ++ J ++ w4 ++ M ++ w5 ++ T) ->
  length C = 4 -> Forall (digito db) C ->
  brancos w1 ->
  descricao_simples db D -> excecao db D = false ->
  brancos w2 -> quantia db P ->
  brancos w3 -> quantia_ou_traco db J ->
  brancos w4 -> quantia_ou_traco db M ->
  brancos w5 -> quantia db T ->
  exists data banco,
    extrair_dados db
      [C ++ w1 ++ D ++ w2 ++ P ++ w3 ++ J ++ w4 ++ M ++ w5 ++ T]
    = Ok [{| Codigo_do_DARF := C; Descricao := D;
             Data_de_Arrecadacao := data; Banco := banco;
             Valor_Principal := decimal P; Juros := decimal_ou_zero J;
             Multa := decimal_ou_zero M; Total := decimal T |}].
Proof.
  intros compat Hlat LC DC H1 HD Hexc H2 HP H3 HJ H4 HM H5 HT.
  apply uma_linha; auto using quatro_digitos_lang, quantia_lang,
    quantia_ou_traco_lang.
Qed.

Lemma linha_bem_formada_witness :
  exists data banco,
    extrair_dados latin1_ucd
      [lit "1234" ++ lit " " ++ lit "IRPJ - LUCRO REAL (2023)" ++ lit "  "
       ++ lit "1.234,56" ++ lit " " ++ lit "-" ++ lit " " ++ lit "12,00"
       ++ lit " " ++ lit "1.246,56"]
    = Ok [{| Codigo_do_DARF := lit "1234";
             Descricao := lit "IRPJ - LUCRO REAL (2023)";
             Data_de_Arrecadacao := data; Banco := banco;
             Valor_Principal := decimal (lit "1.234,56");
             Juros := decimal_ou_zero (lit "-");
             Multa := decimal_ou_zero (lit "12,00");
             Total := decimal (lit "1.246,56") |}].
Proof.
  apply (@linha_bem_formada latin1_ucd).
  - exact latin1_ucd_compatible.
  - vm_compute. repeat constructor.
  - reflexivity.
  - vm_compute. repeat constructor.
  - split; [discriminate|vm_compute; repeat constructor].
  - split; [discriminate|]. split; [|split; vm_compute; reflexivity].
    vm_compute. repeat (constructor; [discriminate|]). constructor.
  - vm_compute. reflexivity.
  - split; [discriminate|vm_compute; repeat constructor].
  - exists (lit "1"), [lit "234"], (lit "56").
    split; [reflexivity|]. vm_compute. repeat constructor.
  - split; [discriminate|vm_compute; repeat constructor].
  - right. reflexivity.
  - split; [discriminate|vm_compute; repeat constructor].
  - left. exists (lit "12"), [], (lit "00").
    split; [reflexivity|]. vm_compute. repeat constructor.
  - split; [discriminate|vm_compute; repeat constructor].
  - exists (lit "1"), [lit "246"], (lit "56").
    split; [reflexivity|]. vm_compute. repeat constructor.
Defined.
